(** * movie_etl_project: the cache-backed enrichment pipeline of [etl.py]

    A shallow embedding of [src/etl.py] and the properties of its enrichment
    loop: which records reach the external service, when the cache file is
    rewritten, when the loop sleeps, and which rows of [movies_enriched]
    are written.

    Modelling conventions
    - A Python [str] is a [string] holding its UTF-8 bytes.  A [str] can
      hold a lone surrogate (Python's [json] decodes the escape of one), which
      UTF-8 cannot encode; it is written here as the three bytes its code
      point would take (ED A0..BF xx), so [has_surrogate] tells whether
      encoding the [str] raises.  Text read from the CSV files or from
      SQLite was decoded from UTF-8 and holds none; so does the text of an
      exception.  Where the code counts characters (the year of a title),
      the bytes are decoded to code points.
    - Python's Unicode database is not part of the repository: whether a
      code point above 127 is white space and which decimal digit it stands
      for are parameters.
    - A decoded JSON document is a [json]; Python's [None] is [JNull].  A
      JSON object keeps its items in insertion order, as a Python [dict]
      does, because [other] is built by iterating [data.items()].
    - The cache ([dict] from key to payload) is a [gmap string json].
      [json.dumps] followed by [json.loads] is taken to be the identity on
      a mapping that can be encoded, so the cache file holds the mapping
      itself.  The cache file is missing, unreadable or a JSON object.
    - SQLite tables are finite maps from their primary key to the tuple of
      parameters bound by the [INSERT]; column affinity is not modelled.
    - The title column of [movies.csv] holds text, as the source expects
      ("Toy Story (1995)"), and the other columns of the two files hold what
      their names say: integer ids and timestamps, numeric ratings.  An
      integer can be of any size; one that does not fit 64 bits cannot be
      bound, and the import raises.
    - A payload is nested less deeply than Python's recursion limit.
    - The remote service is a state-passing function over an abstract
      [World]; the builtin [float()] is a parameter as well.
    - Appending to the log file, printing and the file system itself (a
      full disk, a missing permission) are assumed not to fail. *)

From Stdlib Require Import ZArith String List Ascii PrimFloat.
From stdpp Require Import base gmap strings list pretty sorting.

Set Warnings "-register-all,-inexact-float".

Local Open Scope Z_scope.
Local Open Scope string_scope.

(** ** Python values *)

Inductive json : Type :=
| JNull
| JBool (b : bool)
| JInt (z : Z)
| JFloat (f : float)
| JStr (s : string)
| JArr (l : list json)
| JObj (o : list (string * json)).

(** [bool(x)] *)
Definition truthy (j : json) : bool :=
  match j with
  | JNull => false
  | JBool b => b
  | JInt z => negb (Z.eqb z 0)
  | JFloat f => negb (PrimFloat.eqb f PrimFloat.zero)
  | JStr s => negb (String.eqb s "")
  | JArr l => match l with [] => false | _ => true end
  | JObj o => match o with [] => false | _ => true end
  end.

(** [x == s] for a string literal [s] *)
Definition eq_str (j : json) (s : string) : bool :=
  match j with
  | JStr s' => String.eqb s' s
  | _ => false
  end.

(** Item lookup in a [dict]: the first item with that key. *)
Fixpoint assoc_get (o : list (string * json)) (k : string) : option json :=
  match o with
  | [] => None
  | (k', v) :: o' => if String.eqb k' k then Some v else assoc_get o' k
  end.

(** [d.get(k)] and [d.get(k, dflt)] *)
Definition dict_get (o : list (string * json)) (k : string) : json :=
  default JNull (assoc_get o k).

Definition dict_get_default (o : list (string * json)) (k : string) (dflt : json) : json :=
  default dflt (assoc_get o k).

(** [str(year)] for an [Optional[int]] inside an f-string *)
Definition str_year (year : option Z) : string :=
  match year with
  | None => "None"
  | Some y => pretty y
  end.

(** ** Text and its encoding *)

Definition byte_val (c : ascii) : Z := Z.of_nat (nat_of_ascii c).

(** A lone surrogate somewhere in the text: [s.encode("utf8")] raises
    [UnicodeEncodeError]. *)
Fixpoint has_surrogate (s : string) : bool :=
  match s with
  | String a s' =>
      match s' with
      | String b _ =>
          (Z.eqb (byte_val a) 237 && Z.leb 160 (byte_val b) && Z.leb (byte_val b) 191)
          || has_surrogate s'
      | EmptyString => false
      end
  | EmptyString => false
  end.

(** The text [json.dumps(j, ensure_ascii=False)] can be encoded: it holds
    the strings and the keys of [j] as they are. *)
Fixpoint json_encodable (j : json) : bool :=
  match j with
  | JStr s => negb (has_surrogate s)
  | JArr l => forallb json_encodable l
  | JObj o => forallb (fun kv => negb (has_surrogate kv.1) && json_encodable kv.2) o
  | _ => true
  end.

Definition cache_encodable (c : gmap string json) : bool :=
  forallb (fun kv => negb (has_surrogate kv.1) && json_encodable kv.2) (map_to_list c).

(** The first byte of a character of several bytes: the bits it carries
    and the number of bytes that follow the next one. *)
Definition utf8_lead (n : Z) : option (Z * nat) :=
  if (n <? 192)%Z then None
  else if (n <? 224)%Z then Some (n - 192, 0%nat)
  else if (n <? 240)%Z then Some (n - 224, 1%nat)
  else Some (n - 240, 2%nat).

(** The code points of UTF-8 text; [pend] is the character being read.
    Bytes that are not UTF-8 are the text of no [str]. *)
Fixpoint utf8_decode (pend : option (Z * nat)) (l : list ascii) : list Z :=
  match l with
  | [] => match pend with Some (v, _) => [v] | None => [] end
  | b :: l' =>
      let n := byte_val b in
      let fresh :=
        match utf8_lead n with
        | Some p => utf8_decode (Some p) l'
        | None => n :: utf8_decode None l'
        end in
      match pend with
      | Some (v, k) =>
          if (128 <=? n)%Z && (n <? 192)%Z then
            match k with
            | O => (v * 64 + (n - 128)) :: utf8_decode None l'
            | S k' => utf8_decode (Some (v * 64 + (n - 128), k')) l'
            end
          else v :: fresh
      | None => fresh
      end
  end.

(** A [str] as the sequence of its characters. *)
Definition code_points (s : string) : list Z :=
  utf8_decode None (list_ascii_of_string s).

(** White space and digits of ASCII text. *)
Definition py_isspace (c : ascii) : bool :=
  let n := nat_of_ascii c in
  ((9 <=? n)%nat && (n <=? 13)%nat) || ((28 <=? n)%nat && (n <=? 32)%nat).

Definition digit_val (c : ascii) : option Z :=
  let n := nat_of_ascii c in
  if ((48 <=? n)%nat && (n <=? 57)%nat) then Some (Z.of_nat n - 48) else None.

Fixpoint lstrip_with (sp : Z -> bool) (l : list Z) : list Z :=
  match l with
  | c :: l' => if sp c then lstrip_with sp l' else l
  | [] => []
  end.

Definition strip_with (sp : Z -> bool) (l : list Z) : list Z :=
  rev (lstrip_with sp (rev (lstrip_with sp l))).

(** [s.endswith(")")] *)
Definition ends_with_paren (t : list Z) : bool :=
  match rev t with
  | c :: _ => (c =? 41)%Z
  | [] => false
  end.

(** [s[-5:-1]] *)
Definition slice_m5_m1 (t : list Z) : list Z :=
  let n := length t in
  let start := (n - 5)%nat in
  let stop := (n - 1)%nat in
  take (stop - start) (drop start t).

(** The white space [int()] skips at both ends of the text it parses: C's
    [isspace], which leaves out the separators 28 to 31. *)
Definition c_isspace (c : Z) : bool :=
  ((9 <=? c)%Z && (c <=? 13)%Z) || (c =? 32)%Z.

(** Digits of a decimal literal; a single underscore may separate two
    digits.  [prev] tells whether the previous character was a digit. *)
Fixpoint int_digits (l : list Z) (acc : Z) (prev : bool) : option Z :=
  match l with
  | [] => if prev then Some acc else None
  | c :: l' =>
      if (c =? 95)%Z then
        if prev then int_digits l' acc false else None
      else if (48 <=? c)%Z && (c <=? 57)%Z then int_digits l' (10 * acc + (c - 48)) true
      else None
  end.

Section Text.

(** The Unicode database, asked about code points above 127. *)
Variable unicode_isspace : Z -> bool.
Variable unicode_decimal : Z -> option Z.

(** The white space [str.strip()] removes. *)
Definition cp_isspace (c : Z) : bool :=
  if (c <? 128)%Z then ((9 <=? c)%Z && (c <=? 13)%Z) || ((28 <=? c)%Z && (c <=? 32)%Z)
  else unicode_isspace c.

Definition cp_decimal (c : Z) : option Z :=
  if (c <? 128)%Z then
    if (48 <=? c)%Z && (c <=? 57)%Z then Some (c - 48) else None
  else
    match unicode_decimal c with
    | Some d => if (0 <=? d)%Z && (d <=? 9)%Z then Some d else None
    | None => None
    end.

(** [s.strip()] *)
Definition py_strip (s : string) : list Z := strip_with cp_isspace (code_points s).

(** What [int()] parses in place of a character: a character below 127 as
    it is, white space as a blank, a digit of any script as its ASCII
    digit, and a question mark for anything else. *)
Definition int_text (c : Z) : Z :=
  if (c <? 127)%Z then c
  else if cp_isspace c then 32
  else match cp_decimal c with
       | Some d => 48 + d
       | None => 63
       end.

(** [int(s)] on text; [None] when it raises [ValueError]. *)
Definition py_int (t : list Z) : option Z :=
  match strip_with c_isspace (int_text <$> t) with
  | [] => None
  | c :: l' =>
      if (c =? 45)%Z then Z.opp <$> int_digits l' 0 false
      else if (c =? 43)%Z then int_digits l' 0 false
      else int_digits (c :: l') 0 false
  end.

(** The year extraction of [upsert_movies]. *)
Definition extract_year (title : string) : option Z :=
  if ends_with_paren (py_strip title) then py_int (slice_m5_m1 (py_strip title))
  else None.

End Text.

(** [int(float(z))]: the integer of the float64 nearest to [z], ties to the
    even mantissa; the identity up to 2^53. *)
Definition float64_int (z : Z) : Z :=
  let a := Z.abs z in
  let e := Z.log2 a - 52 in
  if (e <=? 0)%Z then z
  else
    let q := a / 2 ^ e in
    let r := a mod 2 ^ e in
    let half := 2 ^ (e - 1) in
    let q' := if (half <? r)%Z || ((r =? half)%Z && Z.odd q) then q + 1 else q in
    Z.sgn z * (q' * 2 ^ e).

(** An integer SQLite stores: 64 bits, signed. *)
Definition sqlite_int (z : Z) : bool := Z.leb (- 2 ^ 63) z && Z.ltb z (2 ^ 63).

(** ** Tables *)

(** A row of [movies] without its primary key [movieId]. *)
Record movie_row : Type := MovieRow {
  m_title : string;
  m_year : option Z;
  m_genres : option string
}.

(** A value SQLite accepts as a bound parameter. *)
Inductive sqlval : Type :=
| SqlNull
| SqlInt (z : Z)
| SqlReal (f : float)
| SqlText (s : string).

(** A row of [movies_enriched] without its primary key: the parameters
    bound by the [INSERT OR REPLACE]; [e_other_fields] is the [dict]
    handed to [json.dumps]. *)
Record enriched_row : Type := EnrichedRow {
  e_title : string;
  e_year : option Z;
  e_genres : option string;
  e_director : sqlval;
  e_plot : sqlval;
  e_box_office : sqlval;
  e_imdb_rating : option float;
  e_imdb_id : sqlval;
  e_other_fields : list (string * json)
}.

(** The exceptions that leave [enrich_movies] when the cache it loaded is a
    mapping. *)
Inductive exn : Type :=
| AttributeError      (* [data.get] on a truthy value that is not a dict *)
| SqliteBindError     (* a list or a dict bound as a parameter *)
| OverflowError       (* an int outside the 64-bit range bound as a parameter *)
| UnicodeEncodeError. (* a lone surrogate in the text of the cache file or
                         in text bound as a parameter *)

(** What [sqlite3] does with a Python value given as a parameter: [None],
    [int] (so [bool] too), [float] and [str] are bound, a [str] as its
    UTF-8 text; anything else raises. *)
Definition sql_bind (j : json) : exn + sqlval :=
  match j with
  | JNull => inr SqlNull
  | JBool b => inr (SqlInt (if b then 1 else 0))
  | JInt z => if sqlite_int z then inr (SqlInt z) else inl OverflowError
  | JFloat f => inr (SqlReal f)
  | JStr s => if has_surrogate s then inl UnicodeEncodeError else inr (SqlText s)
  | JArr _ => inl SqliteBindError
  | JObj _ => inl SqliteBindError
  end.

(** The persisted cache: no file, an unreadable file (its text is not
    JSON; an empty file is one), or a JSON object, a mapping from key to
    payload or null. *)
Inductive cache_file_state : Type :=
| FileMissing
| FileCorrupt
| FileJson (m : gmap string json).

Definition load_cache (f : cache_file_state) : gmap string json :=
  match f with
  | FileJson m => m
  | FileMissing => ∅
  | FileCorrupt => ∅
  end.

(** [save_cache]: the file it leaves and the exception it raises.
    [write_text] opens the file, which empties it, and then encodes the
    text: when that raises, the file stays empty. *)
Definition save_cache (c : gmap string json) : cache_file_state * option exn :=
  if cache_encodable c then (FileJson c, None)
  else (FileCorrupt, Some UnicodeEncodeError).

(** ** The remote service *)

Inductive http_outcome : Type :=
| HttpFail (msg : string)                       (* [requests.get] raised *)
| HttpReply (status : Z) (body : string + json). (* [inl]: [r.json()] raises *)

(** ** What a run does, record by record *)

Inductive event : Type :=
| EvLog (msg : string)
| EvQuery (title : string) (year : option Z) (api_key : option string)
          (res : string + json)
| EvSaveCache (c : gmap string json)   (* [save_cache(c)] wrote the file *)
| EvSaveFailed (c : gmap string json)  (* [save_cache(c)] emptied the file and raised *)
| EvSleep (secs : float)
| EvUpsert (movieId : Z) (row : enriched_row).

Definition is_query (e : event) : bool :=
  match e with EvQuery _ _ _ _ => true | _ => false end.

Definition is_sleep (e : event) : bool :=
  match e with EvSleep _ => true | _ => false end.

Definition is_upsert (e : event) : bool :=
  match e with EvUpsert _ _ => true | _ => false end.

(** A call of [save_cache], whatever its outcome. *)
Definition is_save (e : event) : bool :=
  match e with EvSaveCache _ | EvSaveFailed _ => true | _ => false end.

Definition is_save_failed (e : event) : bool :=
  match e with EvSaveFailed _ => true | _ => false end.

(** [f"{title}|{year}"] *)
Definition cache_key (title : string) (year : option Z) : string :=
  title +:+ "|" +:+ str_year year.

Definition key_of (r : Z * movie_row) : string :=
  cache_key (m_title r.2) (m_year r.2).

(** [bool(api_key)] *)
Definition api_key_set (k : option string) : bool :=
  match k with
  | Some s => negb (String.eqb s "")
  | None => false
  end.

(** The tuple in [other = {... if k not in (...)}]. *)
Definition other_excluded : list string :=
  ["Title"; "Year"; "Director"; "Plot"; "BoxOffice"; "imdbRating"; "imdbID"; "Genre"].

Definition other_of (o : list (string * json)) : list (string * json) :=
  List.filter (fun kv => negb (existsb (String.eqb kv.1) other_excluded)) o.

(** [data.get("Response","True") != "False"] *)
Definition response_ok (o : list (string * json)) : bool :=
  negb (eq_str (dict_get_default o "Response" (JStr "True")) "False").

(** The order of a table scan: ascending primary key. *)
Definition id_le (a b : Z * movie_row) : Prop := (a.1 ≤ b.1)%Z.

#[global] Instance id_le_dec (a b : Z * movie_row) : Decision (id_le a b).
Proof. unfold id_le. apply _. Defined.

(** How lines 143-164 end for a record: [continue], a value for the
    record, or an exception. *)
Inductive resolution : Type :=
| Skipped
| Resolved (data : json)
| Raised (e : exn).

Section Pipeline.

(** The outside world: the state of the network and of the remote service,
    and [requests.get(base, params=params, timeout=10)] on it. *)
Context {World : Type}.
Variable requests_get : World -> list (string * string) -> http_outcome * World.

(** The builtin [float()] on text and on integers; [None] when it raises. *)
Variable float_of_str : string -> option float.
Variable float_of_int : Z -> option float.

(** The Unicode database. *)
Variable unicode_isspace : Z -> bool.
Variable unicode_decimal : Z -> option Z.

(** [float(x)]; every exception it can raise is an [Exception]. *)
Definition py_float (x : json) : option float :=
  match x with
  | JStr s => float_of_str s
  | JInt z => float_of_int z
  | JFloat f => Some f
  | JBool b => Some (if b then PrimFloat.one else PrimFloat.zero)
  | JNull => None
  | JArr _ => None
  | JObj _ => None
  end.

(** [query_omdb]: [inl msg] is a raised exception whose text is [msg]. *)
Definition query_omdb (w : World) (title : string) (year : option Z)
    (api_key : option string) : (string + json) * World :=
  let params :=
    ([("t", title)]
     ++ match year with
        | Some y => if Z.eqb y 0 then [] else [("y", pretty y)]
        | None => []
        end
     ++ match api_key with
        | Some k => if String.eqb k "" then [] else [("apikey", k)]
        | None => []
        end)%list in
  match requests_get w params with
  | (HttpFail msg, w') => (inl msg, w')
  | (HttpReply status body, w') =>
      if negb (Z.eqb status 200) then (inl ("OMDb HTTP " +:+ pretty status), w')
      else (body, w')
  end.

(** The variables of [enrich_movies] and what it can reach outside. *)
Record state : Type := State {
  cache : gmap string json;
  cache_file : cache_file_state;
  enriched : gmap Z enriched_row;
  world : World;
  processed : nat;
  hits : nat;
  misses : nat
}.

(** Lines 160-164: store the value, count the miss, rewrite the cache file,
    sleep.  When [save_cache] raises, nothing catches it. *)
Definition record_miss (s : state) (w : World) (key : string) (data : json)
    : list event * state * option exn :=
  let cache' := <[key := data]> (cache s) in
  let '(file, raised) := save_cache cache' in
  (match raised with
   | None => [EvSaveCache cache'; EvSleep 0.1%float]
   | Some _ => [EvSaveFailed cache']
   end,
   {| cache := cache'; cache_file := file;
      enriched := enriched s; world := w;
      processed := processed s; hits := hits s; misses := S (misses s) |},
   raised).

(** Lines 143-164. *)
Definition resolve (api_key : option string) (mock_cache : option (gmap string json))
    (s : state) (r : Z * movie_row) : list event * state * resolution :=
  let key := key_of r in
  let stored data raised :=
    match raised with Some e => Raised e | None => Resolved data end in
  match cache s !! key with
  | Some data =>
      ([], {| cache := cache s; cache_file := cache_file s;
              enriched := enriched s; world := world s;
              processed := processed s; hits := S (hits s);
              misses := misses s |}, Resolved data)
  | None =>
      match mock_cache with
      | Some m =>
          let data := default JNull (m !! key) in
          let '(evs, s', raised) := record_miss s (world s) key data in
          (evs, s', stored data raised)
      | None =>
          if negb (api_key_set api_key) then
            ([EvLog ("No API key provided and no mock entry for " +:+ key
                     +:+ " -> skipping")], s, Skipped)
          else
            let '(res, w') := query_omdb (world s) (m_title r.2) (m_year r.2) api_key in
            let q := EvQuery (m_title r.2) (m_year r.2) api_key res in
            match res with
            | inr data =>
                let '(evs, s', raised) := record_miss s w' key data in
                (q :: evs, s', stored data raised)
            | inl e =>
                let '(evs, s', raised) := record_miss s w' key JNull in
                (q :: EvLog ("OMDb request failed for " +:+ m_title r.2 +:+ " ("
                             +:+ str_year (m_year r.2) +:+ "): " +:+ e)
                   :: evs, s', stored JNull raised)
            end
      end
  end.

(** Lines 169-173. *)
Definition imdb_rating_of (o : list (string * json)) : option float :=
  let x := dict_get o "imdbRating" in
  if truthy x && negb (eq_str x "N/A") then py_float x else None.

(** The parameter tuple of the [INSERT]; binding goes through the tuple in
    order and stops at the first value SQLite cannot take.  The id, the
    title, the year and the genres were read from the database and the
    rating is a float or [None]: they are bound as they are.  The last
    parameter is the text [json.dumps(other, ensure_ascii=False)]. *)
Definition build_row (r : Z * movie_row) (o : list (string * json)) : exn + enriched_row :=
  match sql_bind (dict_get o "Director") with
  | inl e => inl e
  | inr director =>
  match sql_bind (dict_get o "Plot") with
  | inl e => inl e
  | inr plot =>
  match sql_bind (dict_get o "BoxOffice") with
  | inl e => inl e
  | inr box_office =>
  match sql_bind (dict_get o "imdbID") with
  | inl e => inl e
  | inr imdb_id =>
      if json_encodable (JObj (other_of o)) then
        inr {| e_title := m_title r.2; e_year := m_year r.2; e_genres := m_genres r.2;
               e_director := director; e_plot := plot; e_box_office := box_office;
               e_imdb_rating := imdb_rating_of o; e_imdb_id := imdb_id;
               e_other_fields := other_of o |}
      else inl UnicodeEncodeError
  end end end end.

(** Lines 165-175 and the binding of the parameters: [inr None] when the
    test of line 165 fails, [inl e] when an exception leaves the loop. *)
Definition normalize (r : Z * movie_row) (data : json) : exn + option enriched_row :=
  if truthy data then
    match data with
    | JObj o =>
        if response_ok o then
          match build_row r o with
          | inr row => inr (Some row)
          | inl e => inl e
          end
        else inr None
    | _ => inl AttributeError
    end
  else inr None.

(** Lines 165-192: normalize, write and commit. *)
Definition persist (s : state) (r : Z * movie_row) (data : json)
    : list event * state * option exn :=
  match normalize r data with
  | inr (Some row) =>
      ([EvUpsert r.1 row],
       {| cache := cache s; cache_file := cache_file s;
          enriched := <[r.1 := row]> (enriched s); world := world s;
          processed := S (processed s); hits := hits s;
          misses := misses s |}, None)
  | inr None => ([], s, None)
  | inl e => ([], s, Some e)
  end.

(** One iteration of the [for] loop. *)
Definition enrich_record (api_key : option string) (mock_cache : option (gmap string json))
    (s : state) (r : Z * movie_row) : list event * state * option exn :=
  match resolve api_key mock_cache s r with
  | (evs, s', Skipped) => (evs, s', None)
  | (evs, s', Raised e) => (evs, s', Some e)
  | (evs, s', Resolved data) =>
      let '(evs', s'', res) := persist s' r data in
      ((evs ++ evs')%list, s'', res)
  end.

(** The [for] loop: the events of each record reached, the state left, and
    the exception that ended the loop, if any. *)
Fixpoint enrich_loop (api_key : option string) (mock_cache : option (gmap string json))
    (rows : list (Z * movie_row)) (s : state)
    : list ((Z * movie_row) * list event) * state * option exn :=
  match rows with
  | [] => ([], s, None)
  | r :: rows' =>
      match enrich_record api_key mock_cache s r with
      | (evs, s', Some e) => ([(r, evs)], s', Some e)
      | (evs, s', None) =>
          let '(tr, s'', res) := enrich_loop api_key mock_cache rows' s' in
          ((r, evs) :: tr, s'', res)
      end
  end.

(** The SQLite database, the cache file and the network. *)
Record system : Type := System {
  movies : gmap Z movie_row;
  ratings : gmap (Z * Z * Z) float;
  movies_enriched : gmap Z enriched_row;
  omdb_cache : cache_file_state;
  net : World
}.

(** [SELECT movieId, title, year, genres FROM movies]: a scan of the table
    in the order of its integer primary key. *)
Definition select_movies (m : gmap Z movie_row) : list (Z * movie_row) :=
  merge_sort id_le (map_to_list m).

(** What one call of [enrich_movies] did. *)
Record run : Type := Run {
  run_trace : list ((Z * movie_row) * list event);
  run_tail : list event;      (* after the loop: lines 193-194 *)
  run_exn : option exn;       (* the exception that left the function *)
  run_cache : gmap string json; (* the [cache] dict when the function ended *)
  run_sys : system
}.

Definition enrich_movies (api_key : option string) (mock_cache : option (gmap string json))
    (sys : system) : run :=
  let s0 := {| cache := load_cache (omdb_cache sys); cache_file := omdb_cache sys;
               enriched := movies_enriched sys; world := net sys;
               processed := 0; hits := 0; misses := 0 |} in
  let '(tr, s, res) := enrich_loop api_key mock_cache (select_movies (movies sys)) s0 in
  let left file :=
    {| movies := movies sys; ratings := ratings sys; movies_enriched := enriched s;
       omdb_cache := file; net := world s |} in
  match res with
  | Some e =>
      {| run_trace := tr; run_tail := []; run_exn := Some e; run_cache := cache s;
         run_sys := left (cache_file s) |}
  | None =>
      match save_cache (cache s) with
      | (file, Some e) =>
          {| run_trace := tr; run_tail := [EvSaveFailed (cache s)]; run_exn := Some e;
             run_cache := cache s; run_sys := left file |}
      | (file, None) =>
          {| run_trace := tr;
             run_tail := [EvSaveCache (cache s);
                          EvLog ("Enrichment done. Processed:" +:+ pretty (processed s)
                                 +:+ " cache_hits:" +:+ pretty (hits s)
                                 +:+ " cache_misses:" +:+ pretty (misses s))];
             run_exn := None; run_cache := cache s; run_sys := left file |}
      end
  end.

(** Every id of the frame can be bound; otherwise [executemany] raises
    [OverflowError]. *)
Definition movies_bind (movies_df : list (Z * string * option string)) : bool :=
  forallb (fun r : Z * string * option string => sqlite_int r.1.1) movies_df.

(** [upsert_movies]: [INSERT OR REPLACE] of every input row, in order.  A
    row of the frame holds a string, so [int(r['movieId'])] is the id as it
    was read.  When an id cannot be bound the exception leaves [main]
    before [conn.commit()], and the table stays as it was. *)
Definition upsert_movies (movies_df : list (Z * string * option string))
    (m : gmap Z movie_row) : gmap Z movie_row :=
  if movies_bind movies_df then
    foldl (fun m r =>
             <[r.1.1 := {| m_title := r.1.2;
                           m_year := extract_year unicode_isspace unicode_decimal r.1.2;
                           m_genres := r.2 |}]> m)
          m movies_df
  else m.

(** The frame read from [ratings.csv]: its rows (userId, movieId, rating,
    timestamp), and whether the rating column holds floats, as it does for
    ratings like 3.5, or integers.  With a column of floats beside the
    three columns of integers, the common type of a row is float64. *)
Record ratings_frame : Type := RatingsFrame {
  float_ratings : bool;
  rating_rows : list (Z * Z * float * Z)
}.

(** The tuple [upsert_ratings] builds from an input row.  With a rating
    column of floats, [iterrows()] hands out every row as float64 values
    and [int()] gets the float nearest to each integer; with a rating
    column of integers the row holds the integers themselves. *)
Definition rating_params (floats : bool) (r : Z * Z * float * Z) : Z * Z * float * Z :=
  let int_of z := if floats then float64_int z else z in
  (int_of r.1.1.1, int_of r.1.1.2, r.1.2, int_of r.2).

(** Every tuple can be bound; otherwise [executemany] raises
    [OverflowError]. *)
Definition ratings_bind (ratings_df : ratings_frame) : bool :=
  forallb (fun p : Z * Z * float * Z =>
             sqlite_int p.1.1.1 && sqlite_int p.1.1.2 && sqlite_int p.2)
          (rating_params (float_ratings ratings_df) <$> rating_rows ratings_df).

(** [upsert_ratings]: [INSERT OR IGNORE] on the key (userId, movieId,
    timestamp).  When a tuple cannot be bound the exception leaves [main]
    before [conn.commit()], and the table stays as it was. *)
Definition upsert_ratings (ratings_df : ratings_frame)
    (t : gmap (Z * Z * Z) float) : gmap (Z * Z * Z) float :=
  if ratings_bind ratings_df then
    foldl (fun t p =>
             let k := (p.1.1.1, p.1.1.2, p.2) in
             match t !! k with
             | Some _ => t
             | None => <[k := p.1.2]> t
             end)
          t (rating_params (float_ratings ratings_df) <$> rating_rows ratings_df)
  else t.

(** The command line. *)
Record args : Type := Args {
  omdb_key : option string;
  use_omdb : bool;
  mock_omdb : bool
}.

(** [a or b] on two optional strings *)
Definition py_or (a b : option string) : option string :=
  if api_key_set a then a else b.

(** [main]: [env_key] is [os.getenv("OMDB_API_KEY")]; [files] is [None] when
    [read_csv_files] raises.  The log lines of [main] and the top-10 export,
    which read the tables and never change them, are left out.  The result
    is the system left behind and the enrichment run, if one took place;
    none does when [upsert_movies] or [upsert_ratings] raises. *)
Definition main (a : args) (env_key : option string)
    (files : option (list (Z * string * option string) * ratings_frame))
    (sys : system) : system * option run :=
  let key := py_or (omdb_key a) (if use_omdb a then env_key else None) in
  match files with
  | None => (sys, None)
  | Some (movies_df, ratings_df) =>
      let sys1 := {| movies := upsert_movies movies_df (movies sys);
                     ratings := upsert_ratings ratings_df (ratings sys);
                     movies_enriched := movies_enriched sys;
                     omdb_cache := omdb_cache sys; net := net sys |} in
      if negb (movies_bind movies_df) then (sys, None)
      else if negb (ratings_bind ratings_df) then (sys1, None)
      else
        let mock_cache :=
          if mock_omdb a then Some (load_cache (omdb_cache sys1)) else None in
        if mock_omdb a || api_key_set key then
          let r := enrich_movies (if mock_omdb a then None else key) mock_cache sys1 in
          (run_sys r, Some r)
        else (sys1, None)
  end.

End Pipeline.

Arguments State {World}.
Arguments System {World}.
Arguments Run {World}.

(** ** Reading a trace *)

(** The rows written by a list of events, in order. *)
Definition upserts (evs : list event) : list (Z * enriched_row) :=
  omap (fun e => match e with EvUpsert i row => Some (i, row) | _ => None end) evs.

Definition writes (tr : list ((Z * movie_row) * list event)) : list (Z * enriched_row) :=
  concat (map (fun p => upserts p.2) tr).

(** [INSERT OR REPLACE] of a list of rows, last write wins. *)
Definition apply_writes (ws : list (Z * enriched_row)) (t : gmap Z enriched_row)
    : gmap Z enriched_row :=
  foldl (fun t w => <[w.1 := w.2]> t) t ws.

(** The run mode resolves every cache miss: mock mode, or live mode with a
    credential. *)
Definition resolving (api_key : option string) (mock_cache : option (gmap string json)) : Prop :=
  is_Some mock_cache ∨ api_key_set api_key = true.

(** The cache file holds the in-memory cache. *)
Definition synced {World : Type} (s : @state World) : Prop :=
  load_cache (cache_file s) = cache s.

(** A save of the cache raised among these events. *)
Definition save_failed (evs : list event) : bool := existsb is_save_failed evs.

(** No save of the cache raised in the loop. *)
Definition saves_ok (tr : list ((Z * movie_row) * list event)) : Prop :=
  Forall (fun p => save_failed p.2 = false) tr.

(** A value [sqlite3] binds: [None], a boolean, a float, an integer of 64
    bits, a string that can be encoded. *)
Definition sqlite_takes (j : json) : Prop :=
  match j with
  | JNull => True
  | JBool _ => True
  | JFloat _ => True
  | JInt z => (- 2 ^ 63 <= z < 2 ^ 63)%Z
  | JStr s => has_surrogate s = false
  | JArr _ => False
  | JObj _ => False
  end.

(** ** A concrete world for the examples *)

(** The code points above 127 that are white space, and two of the scripts
    whose digits [int()] reads: Arabic-Indic and fullwidth. *)
Definition sample_isspace (c : Z) : bool :=
  bool_decide (c ∈ [133; 160; 5760; 8232; 8233; 8239; 8287; 12288])
  || ((8192 <=? c)%Z && (c <=? 8202)%Z).

Definition sample_decimal (c : Z) : option Z :=
  if (1632 <=? c)%Z && (c <=? 1641)%Z then Some (c - 1632)
  else if (65296 <=? c)%Z && (c <=? 65305)%Z then Some (c - 65296)
  else None.

Definition sample_year : string -> option Z := extract_year sample_isspace sample_decimal.

(** U+00A0, the no-break space; U+001C, a separator; U+FF11, the fullwidth
    digit one; U+D800, a lone surrogate. *)
Definition nbsp : string := String (ascii_of_nat 194) (String (ascii_of_nat 160) "").
Definition sep28 : string := String (ascii_of_nat 28) "".
Definition fullwidth_one : string :=
  String (ascii_of_nat 239) (String (ascii_of_nat 188) (String (ascii_of_nat 145) "")).
Definition lone_surrogate : string :=
  String (ascii_of_nat 237) (String (ascii_of_nat 160) (String (ascii_of_nat 128) "")).

Definition small_float (d : Z) : float :=
  match d with
  | 0 => 0 | 1 => 1 | 2 => 2 | 3 => 3 | 4 => 4
  | 5 => 5 | 6 => 6 | 7 => 7 | 8 => 8 | _ => 9
  end%float.

(** Reads a run of digits: the value so far, the power of ten passed, the
    number of digits read and the rest of the text. *)
Fixpoint read_digits (l : list ascii) (acc scale : float) (n : nat)
    : float * float * nat * list ascii :=
  match l with
  | [] => (acc, scale, n, [])
  | c :: l' =>
      match digit_val c with
      | Some d => read_digits l' (acc * 10 + small_float d)%float (scale * 10)%float (S n)
      | None => (acc, scale, n, l)
      end
  end.

(** A [float()] for the examples below: exact on plain decimals of at most
    15 digits, where the quotient of the two exactly represented integers
    is the correctly rounded value; it takes any other text as a
    [ValueError].  The properties are proved for every [float_of_str]. *)
Definition decimal_float_of_str (s : string) : option float :=
  let '(m, _, n1, rest) := read_digits (list_ascii_of_string s) 0%float 1%float 0 in
  match n1, rest with
  | O, _ => None
  | _, [] => if (n1 <=? 15)%nat then Some m else None
  | _, c :: rest' =>
      if Ascii.eqb c "."%char then
        let '(m', scale, n2, rest'') := read_digits rest' m 1%float 0 in
        match rest'' with
        | [] => if (n1 + n2 <=? 15)%nat then Some (m' / scale)%float else None
        | _ => None
        end
      else None
  end.

Definition decimal_float_of_int (z : Z) : option float :=
  match z with
  | Zneg p => PrimFloat.opp <$> decimal_float_of_str (pretty (Zpos p))
  | _ => decimal_float_of_str (pretty z)
  end.

Definition heat_payload : json :=
  JObj [("Title", JStr "Heat"); ("Year", JStr "1995"); ("Rated", JStr "R");
        ("Director", JStr "Michael Mann"); ("Plot", JStr "A heist.");
        ("BoxOffice", JStr "$67,436,818"); ("imdbRating", JStr "8.3");
        ("imdbID", JStr "tt0113277");
        ("Ratings", JArr [JObj [("Source", JStr "Metacritic"); ("Value", JStr "76/100")]]);
        ("Response", JStr "True")].

Definition not_found_payload : json :=
  JObj [("Response", JStr "False"); ("Error", JStr "Movie not found!")].

Definition title_param (params : list (string * string)) : string :=
  default "" (snd <$> List.find (fun p => String.eqb p.1 "t") params).

(** A service that knows one film, rejects another and is unreachable for
    a third; the world counts the requests made. *)
Definition sample_get (w : nat) (params : list (string * string)) : http_outcome * nat :=
  let t := title_param params in
  (if String.eqb t "Heat (1995)" then HttpReply 200 (inr heat_payload)
   else if String.eqb t "Gone (2001)" then HttpReply 200 (inr not_found_payload)
   else if String.eqb t "Down (1999)" then HttpFail "connection refused"
   else HttpReply 503 (inl "no JSON body"),
   S w).

Definition sample_movies : gmap Z movie_row :=
  list_to_map
    [(1, MovieRow "Heat (1995)" (Some 1995) (Some "Action|Crime"));
     (2, MovieRow "Down (1999)" (Some 1999) None);
     (3, MovieRow "Heat (1995)" (Some 1995) (Some "Thriller"));
     (4, MovieRow "Gone (2001)" (Some 2001) (Some "Drama"));
     (5, MovieRow "Down (1999)" (Some 1999) (Some "Drama"))].

Definition sample_system : @system nat :=
  {| movies := sample_movies; ratings := ∅; movies_enriched := ∅;
     omdb_cache := FileMissing; net := O |}.

Definition sample_enrich := enrich_movies sample_get decimal_float_of_str decimal_float_of_int.
Definition sample_main :=
  main sample_get decimal_float_of_str decimal_float_of_int sample_isspace sample_decimal.

Definition sample_state : @state nat :=
  {| cache := ∅; cache_file := FileMissing; enriched := ∅; world := O;
     processed := 0; hits := 0; misses := 0 |}.

(** The sample database with the film already in the cache file. *)
Definition hit_system : @system nat :=
  {| movies := sample_movies; ratings := ∅; movies_enriched := ∅;
     omdb_cache := FileJson {["Heat (1995)|1995" := heat_payload]}; net := O |}.

(** One base record, and a mock-mode run that resolves it to [d]. *)
Definition title_system : @system nat :=
  {| movies := {[1 := MovieRow "Title" (Some 1995) None]}; ratings := ∅;
     movies_enriched := ∅; omdb_cache := FileMissing; net := O |}.

Definition run_with_payload (d : json) : @run nat :=
  sample_enrich None (Some {["Title|1995" := d]}) title_system.

Definition unparsable_payload : json :=
  JObj [("Director", JStr "X"); ("imdbRating", JStr "abc"); ("Response", JStr "True")].

(** An unparsable rating next to fields of every kind SQLite binds. *)
Definition mixed_payload : json :=
  JObj [("Director", JStr "X"); ("Plot", JInt 7); ("BoxOffice", JBool true);
        ("imdbID", JFloat 1.5%float); ("imdbRating", JStr "abc");
        ("Awards", JArr [JStr "one"]); ("Response", JStr "True")].

Definition no_response_payload : json :=
  JObj [("Director", JStr "X"); ("imdbID", JStr "tt0000002")].

Definition list_director_payload : json :=
  JObj [("Director", JArr [JStr "A"; JStr "B"])].

(** A plot, and a field outside the extracted ones, that cannot be
    encoded. *)
Definition surrogate_plot_payload : json :=
  JObj [("Director", JStr "X"); ("Plot", JStr lone_surrogate)].

Definition surrogate_awards_payload : json :=
  JObj [("Director", JStr "X"); ("imdbRating", JStr "abc");
        ("Awards", JStr lone_surrogate)].

Definition titled_payload : json :=
  JObj [("Title", JStr "T"); ("Rated", JStr "PG"); ("Genre", JStr "Drama")].

(** The record at position [n] of a trace, with its events. *)
Definition nth_record (R : @run nat) (n : nat) : (Z * movie_row) * list event :=
  default ((0, MovieRow "" None None), []) (run_trace R !! n).

(** The sample database with a row left by an earlier run. *)
Definition stale_row : enriched_row :=
  {| e_title := "Down (1999)"; e_year := Some 1999; e_genres := None;
     e_director := SqlText "N. N."; e_plot := SqlNull; e_box_office := SqlNull;
     e_imdb_rating := None; e_imdb_id := SqlText "tt0000001"; e_other_fields := [] |}.

Definition stale_system : @system nat :=
  {| movies := sample_movies; ratings := ∅; movies_enriched := {[2 := stale_row]};
     omdb_cache := FileMissing; net := O |}.

Definition sample_files : option (list (Z * string * option string) * ratings_frame) :=
  Some ([(1, "Heat (1995)", Some "Action|Crime"); (2, "Down (1999)", None);
         (3, "Heat (1995)", Some "Thriller"); (4, "Untitled", Some "Drama")],
        RatingsFrame true [(7, 1, 4.5%float, 964982703); (7, 1, 4.5%float, 964982703)]).

Definition live_args : args :=
  {| omdb_key := Some "k"; use_omdb := false; mock_omdb := false |}.

Definition mock_args : args :=
  {| omdb_key := None; use_omdb := false; mock_omdb := true |}.

(** The run of a pipeline that enriched. *)
Definition the_run (o : option (@run nat)) : @run nat :=
  default (run_with_payload JNull) o.

Definition no_response_row : enriched_row :=
  {| e_title := "Title"; e_year := Some 1995; e_genres := None;
     e_director := SqlText "X"; e_plot := SqlNull; e_box_office := SqlNull;
     e_imdb_rating := None; e_imdb_id := SqlText "tt0000002"; e_other_fields := [] |}.

(** A service whose answer for one film changes with the number of
    requests it has seen, and whose payload for another film holds a lone
    surrogate. *)
Definition flaky_get (w : nat) (params : list (string * string)) : http_outcome * nat :=
  let t := title_param params in
  (if String.eqb t "Heat (1995)" then
     HttpReply 200 (inr (JObj [("Director", JStr (if (w <? 2)%nat then "A" else "B"))]))
   else HttpReply 200 (inr (JObj [("Title", JStr lone_surrogate)])),
   S w).

Definition flaky_main :=
  main flaky_get decimal_float_of_str decimal_float_of_int sample_isspace sample_decimal.

Definition flaky_files : option (list (Z * string * option string) * ratings_frame) :=
  Some ([(1, "Heat (1995)", None); (2, "Bad (2000)", None)], RatingsFrame true []).

Definition empty_system : @system nat :=
  {| movies := ∅; ratings := ∅; movies_enriched := ∅; omdb_cache := FileMissing; net := O |}.


(** ** Reading the tables after an import *)

(** The key of an input row of ratings: (userId, movieId, timestamp) as
    the code reads them. *)
Definition rating_key (floats : bool) (r : Z * Z * float * Z) : Z * Z * Z :=
  ((rating_params floats r).1.1.1, (rating_params floats r).1.1.2, (rating_params floats r).2).

(** The rating of the first input row with that key. *)
Fixpoint first_rating (floats : bool) (rows : list (Z * Z * float * Z)) (k : Z * Z * Z)
    : option float :=
  match rows with
  | [] => None
  | r :: rows' =>
      if decide (rating_key floats r = k) then Some r.1.2 else first_rating floats rows' k
  end.

(** ** Counting in a trace *)

(** A record that missed the cache and was resolved called [save_cache]; a
    record that hit the cache did nothing but, at most, write its row. *)
Definition count_misses (tr : list ((Z * movie_row) * list event)) : nat :=
  length (List.filter (fun p => existsb is_save p.2) tr).

Definition count_hits (tr : list ((Z * movie_row) * list event)) : nat :=
  length (List.filter (fun p => forallb is_upsert p.2) tr).

(** The system with another cache file. *)
Definition with_cache_file {World : Type} (f : cache_file_state) (sys : @system World)
    : @system World :=
  {| movies := movies sys; ratings := ratings sys;
     movies_enriched := movies_enriched sys; omdb_cache := f; net := net sys |}.

(** Two states of the loop that differ at most in the cache file, the two
    files being read as the same mapping. *)
Definition same_but_file {World : Type} (s1 s2 : @state World) : Prop :=
  cache s1 = cache s2 /\ enriched s1 = enriched s2 /\ world s1 = world s2 /\
  processed s1 = processed s2 /\ hits s1 = hits s2 /\ misses s1 = misses s2 /\
  load_cache (cache_file s1) = load_cache (cache_file s2).

Section Rows.

Variable unicode_isspace : Z -> bool.
Variable unicode_decimal : Z -> option Z.

(** The row [upsert_movies] builds from an input row. *)
Definition movie_of (r : Z * string * option string) : movie_row :=
  {| m_title := r.1.2; m_year := extract_year unicode_isspace unicode_decimal r.1.2;
     m_genres := r.2 |}.

(** The row built from the last input row with that id. *)
Fixpoint last_movie (movies_df : list (Z * string * option string)) (i : Z)
    : option movie_row :=
  match movies_df with
  | [] => None
  | r :: df =>
      match last_movie df i with
      | Some row => Some row
      | None => if decide (r.1.1 = i) then Some (movie_of r) else None
      end
  end.

End Rows.

(** * Properties *)

Section Properties.

Context {World : Type}.
Variable requests_get : World -> list (string * string) -> http_outcome * World.
Variable float_of_str : string -> option float.
Variable float_of_int : Z -> option float.
Variable unicode_isspace : Z -> bool.
Variable unicode_decimal : Z -> option Z.

Local Abbreviation norm := (normalize float_of_str float_of_int).
Local Abbreviation persist' := (persist float_of_str float_of_int).
Local Abbreviation resolve' := (resolve requests_get).
Local Abbreviation step := (enrich_record requests_get float_of_str float_of_int).
Local Abbreviation loop := (enrich_loop requests_get float_of_str float_of_int).
Local Abbreviation enrich := (enrich_movies requests_get float_of_str float_of_int).
Local Abbreviation pipeline :=
  (main requests_get float_of_str float_of_int unicode_isspace unicode_decimal).
Local Abbreviation import_movies := (upsert_movies unicode_isspace unicode_decimal).

(** ** One record *)

Lemma upserts_app (a b : list event) : upserts (a ++ b)%list = (upserts a ++ upserts b)%list.
Proof. unfold upserts. apply omap_app. Qed.

Lemma save_failed_app (a b : list event) :
  save_failed (a ++ b)%list = save_failed a || save_failed b.
Proof. unfold save_failed. apply existsb_app. Qed.

Lemma persist_spec (s : @state World) r d evs s' res :
  persist' s r d = (evs, s', res) ->
  cache s' = cache s /\ cache_file s' = cache_file s /\ world s' = world s /\
  evs = match norm r d with inr (Some row) => [EvUpsert r.1 row] | _ => [] end /\
  res = match norm r d with inl e => Some e | _ => None end /\
  enriched s' = apply_writes (upserts evs) (enriched s).
Proof.
  unfold persist. intros H.
  destruct (norm r d) as [e|[row|]]; simplify_eq/=; done.
Qed.

(** Lines 160-164, by the outcome of the save. *)
Lemma record_miss_spec (s : @state World) w k d evs s' raised :
  record_miss s w k d = (evs, s', raised) ->
  cache s' = <[k := d]> (cache s) /\ enriched s' = enriched s /\ world s' = w /\
  processed s' = processed s /\ hits s' = hits s /\ misses s' = S (misses s) /\
  if cache_encodable (<[k := d]> (cache s)) then
    evs = [EvSaveCache (<[k := d]> (cache s)); EvSleep 0.1%float] /\ raised = None /\
    cache_file s' = FileJson (<[k := d]> (cache s))
  else
    evs = [EvSaveFailed (<[k := d]> (cache s))] /\ raised = Some UnicodeEncodeError /\
    cache_file s' = FileCorrupt.
Proof.
  unfold record_miss, save_cache. intros H.
  destruct (cache_encodable _); simplify_eq/=; by repeat split.
Qed.

Lemma resolve_spec api mock (s : @state World) r evs s' od :
  resolve' api mock s r = (evs, s', od) ->
  enriched s' = enriched s /\ cache s ⊆ cache s' /\ upserts evs = [] /\
  match od with
  | Resolved d =>
      cache s' !! key_of r = Some d /\ (synced s -> synced s') /\ save_failed evs = false
  | Skipped =>
      s' = s /\ cache s !! key_of r = None /\ mock = None /\ api_key_set api = false /\
      save_failed evs = false
  | Raised e =>
      e = UnicodeEncodeError /\ cache s !! key_of r = None /\
      is_Some (cache s' !! key_of r) /\ cache_file s' = FileCorrupt /\
      cache_encodable (cache s') = false /\ save_failed evs = true /\
      EvSaveFailed (cache s') ∈ evs
  end.
Proof.
  unfold resolve, synced. intros H.
  destruct (cache s !! key_of r) as [d|] eqn:Hk.
  { simplify_eq/=. done. }
  assert (forall w d evs0 s0 raised,
            record_miss s w (key_of r) d = (evs0, s0, raised) ->
            enriched s0 = enriched s /\ cache s ⊆ cache s0 /\ upserts evs0 = [] /\
            match raised with
            | None =>
                cache s0 !! key_of r = Some d /\ load_cache (cache_file s0) = cache s0 /\
                save_failed evs0 = false
            | Some e =>
                e = UnicodeEncodeError /\ is_Some (cache s0 !! key_of r) /\
                cache_file s0 = FileCorrupt /\ cache_encodable (cache s0) = false /\
                save_failed evs0 = true /\ EvSaveFailed (cache s0) ∈ evs0
            end) as Hmiss.
  { intros w d evs0 s0 raised Hm.
    apply record_miss_spec in Hm as (Hc & He & _ & _ & _ & _ & Hm).
    rewrite Hc. split; [done|]. split; [by apply insert_subseteq|].
    destruct (cache_encodable _) eqn:Henc; destruct Hm as (-> & -> & Hf).
    - rewrite Hf, lookup_insert_eq. by repeat split.
    - rewrite lookup_insert_eq. repeat split; eauto. by left. }
  destruct mock as [m|].
  { destruct (record_miss _ _ _ _) as [[evs0 s0] raised] eqn:Hm.
    apply Hmiss in Hm as (? & ? & ? & Hm). simplify_eq/=.
    destruct raised; simpl; [by destruct Hm as (? & ? & ? & ? & ? & ?)|].
    by destruct Hm as (? & ? & ?). }
  destruct (api_key_set api) eqn:Hapi; simpl in H; last first.
  { simplify_eq/=. by repeat split. }
  destruct (query_omdb _ _ _ _ _) as [[msg|d] w'].
  - destruct (record_miss _ _ _ _) as [[evs0 s0] raised] eqn:Hm.
    apply Hmiss in Hm as (? & ? & Hup & Hm). simplify_eq/=.
    rewrite Hup. repeat split; try done.
    destruct raised; simpl.
    + destruct Hm as (? & ? & ? & ? & ? & ?). repeat split; try done. by do 2 right.
    + by destruct Hm as (? & ? & ?).
  - destruct (record_miss _ _ _ _) as [[evs0 s0] raised] eqn:Hm.
    apply Hmiss in Hm as (? & ? & Hup & Hm). simplify_eq/=.
    rewrite Hup. repeat split; try done.
    destruct raised; simpl.
    + destruct Hm as (? & ? & ? & ? & ? & ?). repeat split; try done. by right.
    + by destruct Hm as (? & ? & ?).
Qed.

Lemma step_spec api mock (s : @state World) r evs s' res :
  step api mock s r = (evs, s', res) ->
  cache s ⊆ cache s' /\
  enriched s' = apply_writes (upserts evs) (enriched s) /\
  if save_failed evs then
    res = Some UnicodeEncodeError /\ upserts evs = [] /\ cache_file s' = FileCorrupt /\
    cache_encodable (cache s') = false /\ cache s !! key_of r = None /\
    is_Some (cache s' !! key_of r) /\ EvSaveFailed (cache s') ∈ evs
  else
    (synced s -> synced s') /\
    match cache s' !! key_of r with
    | Some d =>
        upserts evs = match norm r d with inr (Some row) => [(r.1, row)] | _ => [] end /\
        res = match norm r d with inl e => Some e | _ => None end
    | None =>
        s' = s /\ res = None /\ mock = None /\ api_key_set api = false /\
        evs = [EvLog ("No API key provided and no mock entry for " +:+ key_of r
                      +:+ " -> skipping")]
    end.
Proof.
  unfold enrich_record. intros H.
  destruct (resolve' api mock s r) as [[evs1 s1] od] eqn:Hres.
  pose proof (resolve_spec _ _ _ _ _ _ _ Hres) as (He & Hsub & Hup & Hod).
  destruct od as [|d|e].
  - destruct Hod as (-> & Hk & -> & Hapi & Hsf). simplify_eq/=.
    rewrite Hsf, Hk, Hup. repeat split; try done.
    unfold resolve in Hres. rewrite Hk, Hapi in Hres. by simplify_eq/=.
  - destruct Hod as (Hk & Hsync & Hsf).
    destruct (persist' s1 r d) as [[evs2 s2] res2] eqn:Hper.
    apply persist_spec in Hper as (Hc & Hf & _ & Hevs & Hres2 & Hen).
    simplify_eq/=. rewrite Hc, Hk. unfold synced in *. rewrite Hc, Hf.
    rewrite upserts_app, Hup, save_failed_app, Hsf. simpl.
    assert (save_failed match norm r d with
                        | inr (Some row) => [EvUpsert r.1 row]
                        | _ => []
                        end = false) as -> by (by destruct (norm r d) as [?|[?|]]).
    repeat split; try done.
    + by rewrite Hen, He.
    + by destruct (norm r d) as [?|[?|]].
  - destruct Hod as (-> & Hk & Hs & Hf & Henc & Hsf & Hin). simplify_eq/=.
    rewrite Hsf, Hup, He. by repeat split.
Qed.

(** The two outcomes of lines 160-164 inside one iteration. *)
Ltac miss_cases H :=
  let evs0 := fresh "evs0" in let s0 := fresh "s0" in let raised := fresh "raised" in
  let Hrm := fresh "Hrm" in let Hc := fresh "Hc" in let Hw := fresh "Hw" in
  let Hper := fresh "Hper" in
  destruct (record_miss _ _ _ _) as [[evs0 s0] raised] eqn:Hrm;
  apply record_miss_spec in Hrm as (Hc & _ & Hw & _ & _ & _ & Hrm);
  destruct (cache_encodable _); destruct Hrm as (-> & -> & _); simpl in H;
  [ first
      [ destruct (persist _ _ _ _ _) as [[? ?] ?] eqn:Hper;
        apply persist_spec in Hper as (? & _ & ? & ? & _); simplify_eq/=;
        repeat split; congruence
      | by simplify_eq/= ]
  | by simplify_eq/= ].

(** The events of one record, branch by branch. *)
Lemma step_events api mock (s : @state World) r evs s' res :
  step api mock s r = (evs, s', res) ->
  let k := key_of r in
  let wr d := match norm r d with inr (Some row) => [EvUpsert r.1 row] | _ => [] end in
  let miss d :=
    if cache_encodable (<[k := d]> (cache s))
    then EvSaveCache (<[k := d]> (cache s)) :: EvSleep 0.1%float :: wr d
    else [EvSaveFailed (<[k := d]> (cache s))] in
  match cache s !! k with
  | Some d => evs = wr d /\ cache s' = cache s /\ world s' = world s
  | None =>
      match mock with
      | Some m =>
          let d := default JNull (m !! k) in
          evs = miss d /\ cache s' = <[k := d]> (cache s) /\ world s' = world s
      | None =>
          if api_key_set api then
            let q := query_omdb requests_get (world s) (m_title r.2) (m_year r.2) api in
            let d := match q.1 with inr d => d | inl _ => JNull end in
            evs = (EvQuery (m_title r.2) (m_year r.2) api q.1
                   :: match q.1 with
                      | inl e => [EvLog ("OMDb request failed for " +:+ m_title r.2 +:+ " ("
                                         +:+ str_year (m_year r.2) +:+ "): " +:+ e)]
                      | inr _ => []
                      end
                   ++ miss d)%list /\
            cache s' = <[k := d]> (cache s) /\ world s' = q.2
          else
            evs = [EvLog ("No API key provided and no mock entry for " +:+ k
                          +:+ " -> skipping")] /\ s' = s /\ res = None
      end
  end.
Proof.
  unfold enrich_record, resolve. intros H. simpl.
  destruct (cache s !! key_of r) as [d|] eqn:Hk.
  { destruct (persist' _ r d) as [[evs2 s2] res2] eqn:Hper.
    apply persist_spec in Hper as (Hc & _ & Hw & Hevs & _). by simplify_eq/=. }
  destruct mock as [m|].
  { miss_cases H. }
  destruct (api_key_set api); simpl in H; [|by simplify_eq/=].
  destruct (query_omdb _ _ _ _ _) as [[msg|d] w']; simpl in *; miss_cases H.
Qed.

(** ** The loop *)

Lemma apply_writes_app (a b : list (Z * enriched_row)) t :
  apply_writes (a ++ b)%list t = apply_writes b (apply_writes a t).
Proof. unfold apply_writes. apply foldl_app. Qed.

(** The loop only adds keys to the cache and applies the writes of its
    trace.  The cache file follows the cache as long as no save raises; a
    save that raises ends the loop and leaves the file empty. *)
Lemma loop_spec api mock rows (s : @state World) tr s' res :
  loop api mock rows s = (tr, s', res) ->
  cache s ⊆ cache s' /\
  enriched s' = apply_writes (writes tr) (enriched s) /\
  (synced s -> saves_ok tr -> synced s') /\
  (saves_ok tr \/
   (res = Some UnicodeEncodeError /\ cache_file s' = FileCorrupt /\
    cache_encodable (cache s') = false /\ ~ synced s' /\
    exists pre r evs, tr = (pre ++ [(r, evs)])%list /\ EvSaveFailed (cache s') ∈ evs)).
Proof.
  revert s tr s' res. induction rows as [|r rows IH]; intros s tr s' res H; simpl in H.
  { simplify_eq/=. repeat split; try done. left. constructor. }
  destruct (step api mock s r) as [[evs s1] res1] eqn:Hstep.
  pose proof (step_spec _ _ _ _ _ _ _ Hstep) as (Hsub & Hen & Hcase).
  destruct (save_failed evs) eqn:Hsf.
  { destruct Hcase as (-> & _ & Hf & Henc & _ & [d Hd] & Hin). simplify_eq/=.
    unfold writes. simpl. rewrite app_nil_r. repeat split; try done.
    - intros _ Hok. apply Forall_cons in Hok as [Hok _]. simpl in Hok. congruence.
    - right. repeat split; try done.
      + unfold synced. rewrite Hf. simpl.
        intros Heq. rewrite <- Heq in Hd. by rewrite lookup_empty in Hd.
      + by exists [], r, evs. }
  destruct Hcase as (Hsync & _).
  destruct res1 as [e|].
  - simplify_eq/=. unfold writes. simpl. rewrite app_nil_r.
    repeat split; try done; [by auto|]. left. by repeat constructor.
  - destruct (loop api mock rows s1) as [[tr1 s2] res1] eqn:Hloop.
    apply IH in Hloop as (Hsub' & Hen' & Hsync' & Hfail'). simplify_eq/=.
    split; [by etrans|]. split.
    { unfold writes. simpl. fold (writes tr1). by rewrite apply_writes_app, <- Hen. }
    split.
    + intros Hs Hok. apply Forall_cons in Hok as [_ Hok]. auto.
    + destruct Hfail' as [Hok|(? & ? & ? & ? & pre & r' & evs' & -> & ?)];
        [left; by constructor|right].
      repeat split; try done. by exists ((r, evs) :: pre), r', evs'.
Qed.

(** A loop that ends without an exception saw no save raise. *)
Lemma loop_returns_saves_ok api mock rows (s : @state World) tr s' :
  loop api mock rows s = (tr, s', None) -> saves_ok tr.
Proof.
  intros H. apply loop_spec in H as (_ & _ & _ & [?|(? & _)]); done.
Qed.

(** Every record of the trace was processed by one step of the loop, from a
    state whose cache extends the initial one, and the records after it by
    the loop itself. *)
Lemma loop_split api mock rows (s : @state World) pre r evs post s' res :
  loop api mock rows s = ((pre ++ (r, evs) :: post)%list, s', res) ->
  exists s1 s2 res_r rows2 res2,
    cache s ⊆ cache s1 /\ step api mock s1 r = (evs, s2, res_r) /\
    loop api mock rows2 s2 = (post, s', res2).
Proof.
  revert s pre. induction rows as [|r0 rows IH]; intros s pre H; simpl in H.
  { destruct pre; simplify_eq/=. }
  destruct (step api mock s r0) as [[evs0 s0] [e|]] eqn:Hstep.
  - destruct pre as [|p [|]]; simplify_eq/=.
    exists s, s', (Some e), [], None. by repeat split.
  - destruct (loop api mock rows s0) as [[tr1 s2] res1] eqn:Hloop.
    destruct pre as [|p pre]; simplify_eq/=.
    + exists s, s0, None, rows, res. by repeat split.
    + apply step_spec in Hstep as (Hsub & _).
      apply IH in Hloop as (s1 & s3 & res_r & rows2 & res2 & Hsub' & ? & ?).
      exists s1, s3, res_r, rows2, res2. repeat split; auto. by etrans.
Qed.

(** In live mode without a credential the cache dict never changes. *)
Lemma loop_skip_mode api rows (s : @state World) tr s' res :
  api_key_set api = false ->
  loop api None rows s = (tr, s', res) -> cache s' = cache s.
Proof.
  intros Hapi. revert s tr s' res.
  induction rows as [|r rows IH]; intros s tr s' res H; simpl in H.
  { by simplify_eq/=. }
  destruct (step api None s r) as [[evs s1] res1] eqn:Hstep.
  assert (cache s1 = cache s) as Hc.
  { apply step_events in Hstep. simpl in Hstep. rewrite Hapi in Hstep.
    destruct (cache s !! key_of r); [by destruct Hstep as (_ & ? & _)|].
    by destruct Hstep as (_ & -> & _). }
  destruct res1; [by simplify_eq/=|].
  destruct (loop api None rows s1) as [[tr1 s2] res2] eqn:Hloop.
  apply IH in Hloop. simplify_eq/=. congruence.
Qed.

(** ** Replace-or-insert of a list of rows *)

Lemma foldl_insert_union {K V X : Type} `{Countable K} (f : X -> K) (g : X -> V)
    (l : list X) (m : gmap K V) :
  foldl (fun m x => <[f x := g x]> m) m l
  = list_to_map (reverse ((fun x => (f x, g x)) <$> l)) ∪ m.
Proof.
  revert m. induction l as [|x l IH]; intros m; simpl.
  { by rewrite (left_id_L ∅ (∪)). }
  rewrite IH, reverse_cons, list_to_map_app. simpl.
  rewrite <- (assoc_L (∪)). f_equal.
  by rewrite insert_union_singleton_l.
Qed.

Lemma foldl_insert_idem {K V X : Type} `{Countable K} (f : X -> K) (g : X -> V)
    (l : list X) (m : gmap K V) :
  foldl (fun m x => <[f x := g x]> m) (foldl (fun m x => <[f x := g x]> m) m l) l
  = foldl (fun m x => <[f x := g x]> m) m l.
Proof.
  rewrite !foldl_insert_union, (assoc_L (∪)). f_equal. apply (idemp_L (∪)).
Qed.

Lemma apply_writes_idem ws t : apply_writes ws (apply_writes ws t) = apply_writes ws t.
Proof. unfold apply_writes. apply (foldl_insert_idem fst snd). Qed.

Lemma upsert_movies_idem df m :
  import_movies df (import_movies df m) = import_movies df m.
Proof.
  unfold upsert_movies. destruct (movies_bind df); [|done].
  apply (foldl_insert_idem (fun r : Z * string * option string => r.1.1)
           (fun r => {| m_title := r.1.2;
                        m_year := extract_year unicode_isspace unicode_decimal r.1.2;
                        m_genres := r.2 |})).
Qed.

Lemma apply_writes_lookup_notin ws t (i : Z) :
  i ∉ ws.*1 -> apply_writes ws t !! i = t !! i.
Proof.
  revert t. induction ws as [|[j row] ws IH]; intros t Hi; [done|].
  apply not_elem_of_cons in Hi as [Hne Hi]. simpl in *.
  change (apply_writes ws (<[j := row]> t) !! i = t !! i).
  rewrite IH by done. by rewrite lookup_insert_ne.
Qed.

Lemma apply_writes_lookup_in ws t (i : Z) row :
  NoDup ws.*1 -> (i, row) ∈ ws -> apply_writes ws t !! i = Some row.
Proof.
  revert t. induction ws as [|[j row'] ws IH]; intros t Hnd Hin.
  { by apply elem_of_nil in Hin. }
  simpl in Hnd. apply NoDup_cons in Hnd as [Hj Hnd].
  change (apply_writes ws (<[j := row']> t) !! i = Some row).
  apply elem_of_cons in Hin as [Heq|Hin].
  - simplify_eq. rewrite apply_writes_lookup_notin by done. apply lookup_insert_eq.
  - by apply IH.
Qed.

Lemma apply_writes_dom ws t (i : Z) :
  is_Some (t !! i) -> is_Some (apply_writes ws t !! i).
Proof.
  revert t. induction ws as [|[j row] ws IH]; intros t Hi; [done|].
  change (is_Some (apply_writes ws (<[j := row]> t) !! i)).
  apply IH. destruct (decide (j = i)) as [->|Hne].
  - rewrite lookup_insert_eq. eauto.
  - by rewrite lookup_insert_ne.
Qed.

(** ** The table scan *)

Lemma select_movies_Permutation m : select_movies m ≡ₚ map_to_list m.
Proof. unfold select_movies. apply merge_sort_Permutation. Qed.

Lemma select_movies_NoDup m : NoDup (select_movies m).*1.
Proof.
  rewrite (select_movies_Permutation m). apply NoDup_fst_map_to_list.
Qed.

Lemma elem_of_select_movies m i row :
  (i, row) ∈ select_movies m <-> m !! i = Some row.
Proof.
  rewrite (select_movies_Permutation m). apply elem_of_map_to_list.
Qed.

(** ** Traces *)

Lemma elem_of_upserts evs i row : (i, row) ∈ upserts evs <-> EvUpsert i row ∈ evs.
Proof.
  unfold upserts. rewrite list_elem_of_omap. split.
  - intros (e & He & Heq). destruct e; by simplify_eq.
  - intros He. by exists (EvUpsert i row).
Qed.

Lemma upserts_nil_Forall evs :
  upserts evs = [] -> Forall (fun e => is_upsert e = false) evs.
Proof.
  intros Hup. apply Forall_forall. intros e He. destruct e; try done.
  apply (proj2 (elem_of_upserts _ _ _)) in He. rewrite Hup in He.
  by apply elem_of_nil in He.
Qed.

Lemma elem_of_writes (tr : list ((Z * movie_row) * list event)) r evs w :
  (r, evs) ∈ tr -> w ∈ upserts evs -> w ∈ writes tr.
Proof.
  intros Htr Hw. induction tr as [|p tr IH]; [by apply elem_of_nil in Htr|].
  change (w ∈ (upserts p.2 ++ writes tr)%list). apply elem_of_app.
  apply elem_of_cons in Htr as [<-|Htr]; [by left|right; auto].
Qed.

(** A record writes at most one row, under its own id. *)
Lemma step_upserts api mock (s : @state World) r evs s' res :
  step api mock s r = (evs, s', res) ->
  upserts evs = [] \/ exists row, upserts evs = [(r.1, row)].
Proof.
  intros H. apply step_spec in H as (_ & _ & H).
  destruct (save_failed evs); [by destruct H as (_ & -> & _); left|].
  destruct H as (_ & H).
  destruct (cache s' !! key_of r) as [d|].
  - destruct H as [-> _]. destruct (norm r d) as [?|[?|]]; eauto.
  - destruct H as (_ & _ & _ & _ & ->). by left.
Qed.

Lemma loop_rows api mock rows (s : @state World) tr s' res :
  loop api mock rows s = (tr, s', res) ->
  tr.*1 `prefix_of` rows /\ (writes tr).*1 `sublist_of` rows.*1.
Proof.
  revert s tr s' res. induction rows as [|r rows IH]; intros s tr s' res H; simpl in H.
  { simplify_eq/=. split; [done|constructor]. }
  destruct (step api mock s r) as [[evs s1] res1] eqn:Hstep.
  apply step_upserts in Hstep.
  assert (forall tr1, (writes tr1).*1 `sublist_of` rows.*1 ->
            (writes ((r, evs) :: tr1)).*1 `sublist_of` (r :: rows).*1) as Hw.
  { intros tr1 Hsub. unfold writes. simpl. fold (writes tr1).
    destruct Hstep as [->|[row ->]]; simpl; by constructor. }
  destruct res1 as [e|].
  - simplify_eq/=. split; [apply prefix_cons, prefix_nil|].
    apply Hw. unfold writes. simpl. apply sublist_nil_l.
  - destruct (loop api mock rows s1) as [[tr1 s2] res2] eqn:Hloop.
    apply IH in Hloop as [Hpre Hsub]. simplify_eq/=.
    split; [by apply prefix_cons|by apply Hw].
Qed.

Lemma loop_writes_NoDup api mock rows (s : @state World) tr s' res :
  NoDup rows.*1 -> loop api mock rows s = (tr, s', res) -> NoDup (writes tr).*1.
Proof.
  intros Hnd H. apply loop_rows in H as [_ H]. by eapply sublist_NoDup.
Qed.

(** What a record of the trace did, read from the cache the loop ends
    with: its value is the one stored under its key, it wrote nothing when
    the save of the cache raised, and a record whose key is still missing
    was skipped for want of a credential. *)
Lemma trace_data api mock rows (s : @state World) tr s' res r evs :
  loop api mock rows s = (tr, s', res) -> (r, evs) ∈ tr ->
  match cache s' !! key_of r with
  | Some d =>
      upserts evs = if save_failed evs then []
                    else match norm r d with inr (Some row) => [(r.1, row)] | _ => [] end
  | None =>
      mock = None /\ api_key_set api = false /\
      evs = [EvLog ("No API key provided and no mock entry for " +:+ key_of r
                    +:+ " -> skipping")]
  end.
Proof.
  intros Hloop Hin. apply list_elem_of_split in Hin as (pre & post & ->).
  apply loop_split in Hloop
    as (s1 & s2 & res_r & rows2 & res2 & _ & Hstep & Hrest).
  apply step_spec in Hstep as (_ & _ & Hstep).
  pose proof (loop_spec _ _ _ _ _ _ _ Hrest) as (Hsub & _).
  destruct (save_failed evs).
  { destruct Hstep as (_ & -> & _ & _ & _ & [d Hd] & _).
    by rewrite (lookup_weaken _ _ _ _ Hd Hsub). }
  destruct Hstep as (_ & Hstep).
  destruct (cache s2 !! key_of r) as [d|] eqn:Hk.
  - rewrite (lookup_weaken _ _ _ _ Hk Hsub). by destruct Hstep.
  - destruct Hstep as (-> & _ & -> & Hapi & ->).
    rewrite (loop_skip_mode _ _ _ _ _ _ Hapi Hrest), Hk. done.
Qed.

(** Unfolding of [enrich_movies]: the loop, then lines 193-194. *)
Lemma enrich_movies_loop api mock (sys : @system World) :
  exists s' res,
    loop api mock (select_movies (movies sys))
      {| cache := load_cache (omdb_cache sys); cache_file := omdb_cache sys;
         enriched := movies_enriched sys; world := net sys;
         processed := 0; hits := 0; misses := 0 |}
    = (run_trace (enrich api mock sys), s', res) /\
    run_cache (enrich api mock sys) = cache s' /\
    movies_enriched (run_sys (enrich api mock sys)) = enriched s' /\
    movies (run_sys (enrich api mock sys)) = movies sys /\
    net (run_sys (enrich api mock sys)) = world s' /\
    match res with
    | Some e =>
        run_exn (enrich api mock sys) = Some e /\ run_tail (enrich api mock sys) = [] /\
        omdb_cache (run_sys (enrich api mock sys)) = cache_file s'
    | None =>
        if cache_encodable (cache s') then
          run_exn (enrich api mock sys) = None /\
          run_tail (enrich api mock sys)
          = [EvSaveCache (cache s');
             EvLog ("Enrichment done. Processed:" +:+ pretty (processed s')
                    +:+ " cache_hits:" +:+ pretty (hits s')
                    +:+ " cache_misses:" +:+ pretty (misses s'))] /\
          omdb_cache (run_sys (enrich api mock sys)) = FileJson (cache s')
        else
          run_exn (enrich api mock sys) = Some UnicodeEncodeError /\
          run_tail (enrich api mock sys) = [EvSaveFailed (cache s')] /\
          omdb_cache (run_sys (enrich api mock sys)) = FileCorrupt
    end.
Proof.
  unfold enrich_movies, save_cache.
  destruct (loop _ _ _ _) as [[tr s'] res] eqn:Hloop.
  exists s', res.
  destruct res; simpl; [by repeat split|].
  destruct (cache_encodable (cache s')); by repeat split.
Qed.

(** When the cache file left by a run holds the cache the run ended with,
    no save raised during the run. *)
Lemma enrich_synced_saves_ok api mock (sys : @system World) :
  load_cache (omdb_cache (run_sys (enrich api mock sys))) = run_cache (enrich api mock sys) ->
  saves_ok (run_trace (enrich api mock sys)) /\
  exists s' res,
    loop api mock (select_movies (movies sys))
      {| cache := load_cache (omdb_cache sys); cache_file := omdb_cache sys;
         enriched := movies_enriched sys; world := net sys;
         processed := 0; hits := 0; misses := 0 |}
    = (run_trace (enrich api mock sys), s', res) /\
    run_cache (enrich api mock sys) = cache s' /\
    movies_enriched (run_sys (enrich api mock sys)) = enriched s' /\
    run_exn (enrich api mock sys) = res /\
    (res = None -> cache_encodable (cache s') = true).
Proof.
  intros Hfile.
  destruct (enrich_movies_loop api mock sys) as (s' & res & Hloop & Hc & He & _ & _ & Hend).
  pose proof (loop_spec _ _ _ _ _ _ _ Hloop) as (_ & _ & _ & Hfail).
  rewrite Hc in Hfile.
  assert (cache_encodable (cache s') = false -> cache s' <> ∅) as Hne.
  { intros Henc Heq. rewrite Heq in Henc. done. }
  destruct res as [e|].
  - destruct Hend as (Hx & _ & Hf). rewrite Hf in Hfile.
    split; [|by exists s', (Some e)].
    destruct Hfail as [?|(_ & _ & _ & Hns)]; [done|]. by destruct Hns.
  - destruct (cache_encodable (cache s')) eqn:Henc.
    + destruct Hend as (Hx & _ & _). split; [|by exists s', None].
      destruct Hfail as [?|(? & _)]; done.
    + destruct Hend as (_ & _ & Hf). rewrite Hf in Hfile. simpl in Hfile.
      symmetry in Hfile. by apply Hne in Hfile.
Qed.

Lemma NoDup_fmap_agree {A B : Type} (f : A -> B) (l : list A) x y :
  NoDup (f <$> l) -> x ∈ l -> y ∈ l -> f x = f y -> x = y.
Proof.
  induction l as [|a l IH]; intros Hnd Hx Hy Hf; [by apply elem_of_nil in Hx|].
  simpl in Hnd. apply NoDup_cons in Hnd as [Ha Hnd].
  apply elem_of_cons in Hx as [->|Hx]; apply elem_of_cons in Hy as [->|Hy]; auto.
  - destruct Ha. rewrite Hf. by apply list_elem_of_fmap_2.
  - destruct Ha. rewrite <- Hf. by apply list_elem_of_fmap_2.
Qed.

Lemma elem_of_writes_inv (tr : list ((Z * movie_row) * list event)) w :
  w ∈ writes tr -> exists r evs, (r, evs) ∈ tr /\ w ∈ upserts evs.
Proof.
  induction tr as [|[r evs] tr IH]; intros Hw; [by apply elem_of_nil in Hw|].
  change (w ∈ (upserts evs ++ writes tr)%list) in Hw.
  apply elem_of_app in Hw as [Hw|Hw].
  - exists r, evs. split; [left|done].
  - destruct (IH Hw) as (r' & evs' & ? & ?). exists r', evs'. split; [by right|done].
Qed.

(** With distinct ids in the scan, a record occurs once in the trace. *)
Lemma trace_unique api mock rows (s : @state World) tr s' res r evs r' evs' :
  NoDup rows.*1 -> loop api mock rows s = (tr, s', res) ->
  (r, evs) ∈ tr -> (r', evs') ∈ tr -> r.1 = r'.1 -> r = r' /\ evs = evs'.
Proof.
  intros Hnd Hloop Hin Hin' Hid.
  apply loop_rows in Hloop as [[rest ->] _].
  rewrite fmap_app in Hnd. apply NoDup_app in Hnd as (Hnd & _ & _).
  rewrite <- list_fmap_compose in Hnd.
  pose proof (NoDup_fmap_agree _ _ _ _ Hnd Hin Hin' Hid). by simplify_eq.
Qed.

(** A record that wrote nothing leaves the row of its id as it was. *)
Lemma loop_untouched api mock rows (s : @state World) tr s' res r evs :
  NoDup rows.*1 -> loop api mock rows s = (tr, s', res) ->
  (r, evs) ∈ tr -> upserts evs = [] -> enriched s' !! r.1 = enriched s !! r.1.
Proof.
  intros Hnd Hloop Hin Hup.
  pose proof (loop_spec _ _ _ _ _ _ _ Hloop) as (_ & -> & _).
  apply apply_writes_lookup_notin. intros Hi.
  apply list_elem_of_fmap in Hi as ([i row] & Hi & Hw). simpl in Hi. subst i.
  apply elem_of_writes_inv in Hw as (r' & evs' & Hin' & Hw).
  assert (r'.1 = r.1) as Hid.
  { apply list_elem_of_split in Hin' as (pre & post & ->).
    apply loop_split in Hloop as (s1 & s2 & ? & ? & ? & _ & Hstep & _).
    apply step_upserts in Hstep as [Hnil|[row' Hone]].
    - rewrite Hnil in Hw. by apply elem_of_nil in Hw.
    - rewrite Hone in Hw. apply list_elem_of_singleton in Hw. by simplify_eq. }
  destruct (trace_unique _ _ _ _ _ _ _ _ _ _ _ Hnd Hloop Hin' Hin Hid) as [_ ->].
  rewrite Hup in Hw. by apply elem_of_nil in Hw.
Qed.

(** The row a record wrote is the row of its id when the loop ends. *)
Lemma loop_written api mock rows (s : @state World) tr s' res r evs row :
  NoDup rows.*1 -> loop api mock rows s = (tr, s', res) ->
  (r, evs) ∈ tr -> EvUpsert r.1 row ∈ evs -> enriched s' !! r.1 = Some row.
Proof.
  intros Hnd Hloop Hin Hup.
  pose proof (loop_spec _ _ _ _ _ _ _ Hloop) as (_ & -> & _).
  apply apply_writes_lookup_in; [by eapply loop_writes_NoDup|].
  eapply elem_of_writes; [done|]. by apply elem_of_upserts.
Qed.

(** Each record of a run was one step of the loop on a cache between the
    loaded one and the final one. *)
Lemma trace_step api mock (sys : @system World) r evs :
  (r, evs) ∈ run_trace (enrich api mock sys) ->
  exists s1 s2 res_r,
    load_cache (omdb_cache sys) ⊆ cache s1 /\
    step api mock s1 r = (evs, s2, res_r) /\
    cache s2 ⊆ run_cache (enrich api mock sys).
Proof.
  intros Hin. destruct (enrich_movies_loop api mock sys) as (s' & res & Hloop & -> & _).
  apply list_elem_of_split in Hin as (pre & post & Htr). rewrite Htr in Hloop.
  apply loop_split in Hloop as (s1 & s2 & res_r & rows2 & res2 & Hsub & Hstep & Hrest).
  exists s1, s2, res_r. repeat split; try done.
  by apply loop_spec in Hrest as (? & _).
Qed.

Lemma hit_events api mock (s : @state World) r evs s' res :
  step api mock s r = (evs, s', res) -> is_Some (cache s !! key_of r) ->
  forall e, e ∈ evs -> is_upsert e = true.
Proof.
  intros Hstep [d Hd] e He. apply step_events in Hstep. simpl in Hstep.
  rewrite Hd in Hstep. destruct Hstep as (-> & _).
  destruct (norm r d) as [?|[?|]]; try by apply elem_of_nil in He.
  apply list_elem_of_singleton in He. by subst e.
Qed.

(** ** Cache hits, skipped records and rows left alone *)

(** C2: a record whose key is in the cache mapping loaded at the start of
    the run never reaches the external lookup and never executes the
    inter-call delay: none of its events is a query or a sleep. *)
Theorem cache_hit_no_lookup_no_delay api mock (sys : @system World) r evs :
  (r, evs) ∈ run_trace (enrich api mock sys) ->
  is_Some (load_cache (omdb_cache sys) !! key_of r) ->
  Forall (fun e => is_query e = false /\ is_sleep e = false) evs.
Proof.
  intros Hin [d Hd].
  apply trace_step in Hin as (s1 & s2 & res_r & Hsub & Hstep & _).
  apply Forall_forall. intros e He.
  assert (is_upsert e = true) as Hup.
  { eapply hit_events; [done| |done]. exists d. by eapply lookup_weaken. }
  by destruct e.
Qed.

(** C7: in live mode (no mock mapping) without a credential, a record whose
    key is missing from the cache is skipped entirely: the only thing that
    happens is a log line, the whole state (cache mapping, cache file,
    enriched table, counters) is left as it was, so nothing is saved, no
    delay is executed and no row is written, and the loop goes on with the
    next record from that same state. *)
Theorem no_credential_skips_record api (s : @state World) r rows :
  api_key_set api = false ->
  cache s !! key_of r = None ->
  step api None s r
  = ([EvLog ("No API key provided and no mock entry for " +:+ key_of r
             +:+ " -> skipping")], s, None) /\
  loop api None (r :: rows) s
  = ((r, [EvLog ("No API key provided and no mock entry for " +:+ key_of r
                 +:+ " -> skipping")]) :: (loop api None rows s).1.1,
     (loop api None rows s).1.2, (loop api None rows s).2).
Proof.
  intros Hapi Hk.
  assert (step api None s r
          = ([EvLog ("No API key provided and no mock entry for " +:+ key_of r
                     +:+ " -> skipping")], s, None)) as Hstep.
  { unfold enrich_record, resolve. by rewrite Hk, Hapi. }
  split; [done|]. simpl. rewrite Hstep.
  by destruct (loop api None rows s) as [[tr s'] res].
Qed.

(** C10: the enrichment loop never deletes or blanks a row of the enriched
    table.  Every id that had a row keeps one; a record that is skipped in
    this run (its value in the final cache is absent or falsy, or flagged
    not-found, or its key never entered the cache for want of a
    credential) writes nothing and the row of its id is exactly the one
    left by earlier runs; and ids outside the base scan are untouched. *)
Theorem enrichment_never_deletes api mock (sys : @system World) :
  let R := enrich api mock sys in
  (forall i, is_Some (movies_enriched sys !! i) ->
             is_Some (movies_enriched (run_sys R) !! i)) /\
  (forall r evs, (r, evs) ∈ run_trace R ->
     match run_cache R !! key_of r with
     | None => True
     | Some d => truthy d = false \/ exists o, d = JObj o /\ response_ok o = false
     end ->
     Forall (fun e => is_upsert e = false) evs /\
     movies_enriched (run_sys R) !! r.1 = movies_enriched sys !! r.1) /\
  (forall i, movies sys !! i = None ->
             movies_enriched (run_sys R) !! i = movies_enriched sys !! i).
Proof.
  intros R. subst R.
  destruct (enrich_movies_loop api mock sys) as (s' & res & Hloop & Hc & He & _).
  pose proof (loop_spec _ _ _ _ _ _ _ Hloop) as (_ & Hen & _). simpl in Hen.
  rewrite He, Hc. split; [|split].
  - intros i Hi. rewrite Hen. by apply apply_writes_dom.
  - intros r evs Hin Hskip.
    pose proof (trace_data _ _ _ _ _ _ _ _ _ Hloop Hin) as Hd.
    assert (upserts evs = []) as Hnil.
    { destruct (cache s' !! key_of r) as [d|]; [|by destruct Hd as (_ & _ & ->)].
      rewrite Hd. destruct (save_failed evs); [done|].
      unfold normalize. destruct Hskip as [->|(o & -> & Ho)]; [done|].
      destruct (truthy (JObj o)); [|done]. by rewrite Ho. }
    split; [by apply upserts_nil_Forall|].
    change (enriched s' !! r.1
            = enriched {| cache := load_cache (omdb_cache sys);
                          cache_file := omdb_cache sys;
                          enriched := movies_enriched sys; world := net sys;
                          processed := 0; hits := 0; misses := 0 |} !! r.1).
    eapply loop_untouched; [apply select_movies_NoDup|done..].
  - intros i Hi. rewrite Hen. apply apply_writes_lookup_notin.
    intros Hin. apply loop_rows in Hloop as [_ Hsub].
    eapply elem_of_sublist in Hin; [|done].
    apply list_elem_of_fmap in Hin as ([j row] & -> & Hin).
    apply elem_of_select_movies in Hin. simpl in Hi. congruence.
Qed.

(** ** Running twice *)

(** A second pass over the same rows, started on a cache that extends the
    one the first pass ended with, finds every record in the cache, writes
    the same rows in the same order and ends the same way, provided no
    save of the cache raised in the first pass. *)
Lemma loop_rerun api1 mock1 api2 mock2 rows (s1 : @state World) tr1 s1' res s2 :
  resolving api1 mock1 ->
  loop api1 mock1 rows s1 = (tr1, s1', res) ->
  saves_ok tr1 ->
  cache s1' ⊆ cache s2 ->
  exists tr2 s2',
    loop api2 mock2 rows s2 = (tr2, s2', res) /\
    writes tr2 = writes tr1 /\ cache s2' = cache s2 /\ world s2' = world s2 /\
    Forall (fun p => Forall (fun e => is_upsert e = true) p.2) tr2.
Proof.
  intros Hmode. revert s1 tr1 s1' res s2.
  induction rows as [|r rows IH]; intros s1 tr1 s1' res s2 Hloop Hok Hsub; simpl in *.
  { simplify_eq. by exists [], s2. }
  destruct (step api1 mock1 s1 r) as [[evs1 s1m] res1] eqn:Hstep1.
  destruct (step api2 mock2 s2 r) as [[evs2 s2m] res2] eqn:Hstep2.
  pose proof (step_spec _ _ _ _ _ _ _ Hstep1) as (_ & _ & Hd1).
  pose proof (step_spec _ _ _ _ _ _ _ Hstep2) as (_ & _ & Hd2).
  pose proof (step_events _ _ _ _ _ _ _ Hstep2) as Hev2. simpl in Hev2.
  assert (save_failed evs1 = false) as Hsf1.
  { destruct res1 as [e|].
    - simplify_eq. by apply Forall_cons in Hok as [? _].
    - destruct (loop api1 mock1 rows s1m) as [[tr s] res']. simplify_eq.
      by apply Forall_cons in Hok as [? _]. }
  rewrite Hsf1 in Hd1. destruct Hd1 as (_ & Hd1).
  destruct (cache s1m !! key_of r) as [d|] eqn:Hk; last first.
  { destruct Hd1 as (_ & _ & -> & Hapi & _).
    destruct Hmode as [[? ?]|?]; congruence. }
  destruct Hd1 as [Hup1 ->].
  assert (cache s1m ⊆ cache s1') as Hsub1.
  { destruct (norm r d) as [e|o]; [by simplify_eq|].
    destruct (loop api1 mock1 rows s1m) as [[tr s] res'] eqn:Hl.
    apply loop_spec in Hl as (? & _). destruct o; by simplify_eq. }
  assert (cache s2 !! key_of r = Some d) as Hk2.
  { eapply lookup_weaken; [|done]. by eapply lookup_weaken. }
  rewrite Hk2 in Hev2. destruct Hev2 as (Hevs2 & Hc2 & Hw2).
  assert (Forall (fun e => is_upsert e = true) evs2) as Hall.
  { rewrite Hevs2. destruct (norm r d) as [?|[?|]]; by repeat constructor. }
  assert (save_failed evs2 = false) as Hsf2.
  { rewrite Hevs2. by destruct (norm r d) as [?|[?|]]. }
  rewrite Hsf2, Hc2, Hk2 in Hd2. destruct Hd2 as (_ & Hup2 & ->).
  clear Hevs2.
  destruct (norm r d) as [e|o] eqn:Hn.
  - simplify_eq. exists [(r, evs2)], s2m. repeat split; try done.
    + unfold writes. simpl. by rewrite Hup1, Hup2.
    + by repeat constructor.
  - destruct (loop api1 mock1 rows s1m) as [[tr1' s1f] res1'] eqn:Hl1.
    assert (tr1 = (r, evs1) :: tr1' /\ s1' = s1f /\ res = res1') as (-> & -> & ->)
      by (destruct o; by simplify_eq).
    apply Forall_cons in Hok as [_ Hok].
    destruct (IH _ _ _ _ s2m Hl1 Hok) as (tr2 & s2' & Hl2 & Hw & Hc & Hwd & Hall').
    { by rewrite Hc2. }
    assert (loop api2 mock2 rows s2m = (tr2, s2', res1')) as Hl2' by done.
    exists ((r, evs2) :: tr2), s2'.
    replace (match o with Some _ => None | None => None end) with (@None exn)
      by (by destruct o).
    rewrite Hl2'. repeat split; try done.
    + unfold writes in *. simpl. by rewrite Hup1, Hup2, Hw.
    + congruence.
    + congruence.
    + by constructor.
Qed.

(** [enrich_movies] again, on the tables and the cache file the first call
    left, that file holding the cache the first call ended with: the
    enriched table does not change, and each row written is the row
    already there. *)
Lemma enrich_twice api1 mock1 api2 mock2 (sys sys' : @system World) :
  resolving api1 mock1 ->
  load_cache (omdb_cache (run_sys (enrich api1 mock1 sys))) = run_cache (enrich api1 mock1 sys) ->
  movies sys' = movies sys ->
  movies_enriched sys' = movies_enriched (run_sys (enrich api1 mock1 sys)) ->
  omdb_cache sys' = omdb_cache (run_sys (enrich api1 mock1 sys)) ->
  movies_enriched (run_sys (enrich api2 mock2 sys'))
  = movies_enriched (run_sys (enrich api1 mock1 sys)) /\
  Forall (fun p =>
            Forall (fun e =>
                      match e with
                      | EvUpsert i row =>
                          movies_enriched (run_sys (enrich api1 mock1 sys)) !! i = Some row
                      | _ => True
                      end) p.2)
         (run_trace (enrich api2 mock2 sys')).
Proof.
  intros Hmode Hfile Hm He Hf.
  destruct (enrich_synced_saves_ok _ _ _ Hfile) as (Hok & s1 & res1 & Hloop1 & Hc1 & He1 & _).
  destruct (enrich_movies_loop api2 mock2 sys') as (s2 & res2 & Hloop2 & _ & He2 & _).
  rewrite He2, He1. rewrite Hm, He, Hf, He1, Hfile, Hc1 in Hloop2.
  destruct (loop_rerun _ _ api2 mock2 _ _ _ _ _
              {| cache := cache s1; cache_file := omdb_cache (run_sys (enrich api1 mock1 sys));
                 enriched := enriched s1; world := net sys';
                 processed := 0; hits := 0; misses := 0 |} Hmode Hloop1 Hok)
    as (tr2 & s2' & Hloop2' & Hw & _); [done|].
  rewrite Hloop2 in Hloop2'. injection Hloop2' as Htr <- _.
  pose proof (loop_spec _ _ _ _ _ _ _ Hloop1) as (_ & Hen1 & _).
  pose proof (loop_spec _ _ _ _ _ _ _ Hloop2) as (_ & Hen2 & _).
  simpl in Hen1, Hen2. rewrite Htr, Hw in Hen2.
  assert (enriched s2 = enriched s1) as Heq.
  { rewrite Hen2, Hen1. apply apply_writes_idem. }
  split; [done|].
  apply Forall_forall. intros [r evs] Hin. apply Forall_forall. intros e Hev.
  destruct e as [| | | | |i row]; try done.
  rewrite Hen1. apply apply_writes_lookup_in.
  - eapply loop_writes_NoDup; [apply select_movies_NoDup|done].
  - rewrite <- Hw, <- Htr. eapply elem_of_writes; [done|]. by apply elem_of_upserts.
Qed.

(** C1 (amended): running the whole pipeline a second time, with the same
    command line, environment and input tables, on the database, cache file
    and world the first run left, leaves the enriched table exactly as the
    first run left it, and every row the second run writes is the row
    already stored under that id, provided the cache file the first run
    left holds the cache mapping that run ended with, that is, no save of
    the cache raised in the first run. *)
Theorem pipeline_idempotent a env_key files (sys : @system World) :
  let first := pipeline a env_key files sys in
  let second := pipeline a env_key files first.1 in
  match first.2 with
  | Some run1 => load_cache (omdb_cache first.1) = run_cache run1
  | None => True
  end ->
  movies_enriched second.1 = movies_enriched first.1 /\
  match second.2 with
  | Some run2 =>
      Forall (fun p =>
                Forall (fun e =>
                          match e with
                          | EvUpsert i row => movies_enriched first.1 !! i = Some row
                          | _ => True
                          end) p.2)
             (run_trace run2)
  | None => True
  end.
Proof.
  unfold main. destruct files as [[movies_df ratings_df]|]; [|done].
  set (key := py_or (omdb_key a) (if use_omdb a then env_key else None)).
  destruct (movies_bind movies_df) eqn:Hmovies; cbn [negb fst snd]; [|done].
  destruct (ratings_bind ratings_df) eqn:Hbind; cbn [negb fst snd]; [|done].
  destruct (mock_omdb a || api_key_set key) eqn:Hgo; cbn [fst snd]; [|done].
  cbn zeta. cbn [fst snd]. intros Hfile.
  apply enrich_twice; simpl; try done.
  - unfold resolving. destruct (mock_omdb a); [left; eauto|by right].
  - destruct (enrich_movies_loop
                (if mock_omdb a then None else key)
                (if mock_omdb a then Some (load_cache (omdb_cache sys)) else None)
                {| movies := import_movies movies_df (movies sys);
                   ratings := upsert_ratings ratings_df (ratings sys);
                   movies_enriched := movies_enriched sys;
                   omdb_cache := omdb_cache sys; net := net sys |})
      as (s1 & res1 & _ & _ & _ & -> & _).
    simpl. apply upsert_movies_idem.
Qed.

(** ** Normalization *)

Lemma sql_bind_takes j : sqlite_takes j -> exists v, sql_bind j = inr v.
Proof.
  destruct j as [|b|z|f|s|l|o]; simpl; intros H; try done; eauto.
  - unfold sqlite_int.
    destruct (Z.leb_spec (- 2 ^ 63) z); [|lia]. destruct (Z.ltb_spec z (2 ^ 63)); [|lia].
    eauto.
  - rewrite H. eauto.
Qed.

Lemma build_row_takes r o :
  Forall (fun k => sqlite_takes (dict_get o k)) ["Director"; "Plot"; "BoxOffice"; "imdbID"] ->
  json_encodable (JObj (other_of o)) = true ->
  exists row, build_row float_of_str float_of_int r o = inr row /\
              e_imdb_rating row = imdb_rating_of float_of_str float_of_int o /\
              e_other_fields row = other_of o.
Proof.
  intros Hf Henc. unfold build_row.
  apply Forall_cons in Hf as [H1 Hf]. apply Forall_cons in Hf as [H2 Hf].
  apply Forall_cons in Hf as [H3 Hf]. apply Forall_cons in Hf as [H4 _].
  apply sql_bind_takes in H1 as [v1 ->], H2 as [v2 ->], H3 as [v3 ->], H4 as [v4 ->].
  rewrite Henc. eexists. by repeat split.
Qed.

Lemma sql_bind_inv j v : sql_bind j = inr v -> sqlite_takes j.
Proof.
  destruct j as [|b|z|f|s|l|o]; simpl; try done.
  - unfold sqlite_int. destruct (Z.leb_spec (- 2 ^ 63) z), (Z.ltb_spec z (2 ^ 63)); simpl;
      done.
  - by destruct (has_surrogate s).
Qed.

(** X18: The [INSERT] of a found payload can be executed exactly when the
    director, the plot, the box office and the identifier of the payload
    are each absent, null, a boolean, a float, an integer of 64 bits or a
    string without a lone surrogate, and no key or string among the other
    fields holds a lone surrogate. *)
Theorem insert_binds_exactly r o :
  (exists row, build_row float_of_str float_of_int r o = inr row) <->
  Forall (fun k => sqlite_takes (dict_get o k)) ["Director"; "Plot"; "BoxOffice"; "imdbID"] /\
  json_encodable (JObj (other_of o)) = true.
Proof.
  split.
  - intros [row H]. unfold build_row in H.
    destruct (sql_bind (dict_get o "Director")) as [|v1] eqn:H1; [done|].
    destruct (sql_bind (dict_get o "Plot")) as [|v2] eqn:H2; [done|].
    destruct (sql_bind (dict_get o "BoxOffice")) as [|v3] eqn:H3; [done|].
    destruct (sql_bind (dict_get o "imdbID")) as [|v4] eqn:H4; [done|].
    destruct (json_encodable (JObj (other_of o))) eqn:Henc; [|done].
    split; [|done].
    apply sql_bind_inv in H1, H2, H3, H4. by repeat constructor.
  - intros [Hf Henc]. destruct (build_row_takes r o Hf Henc) as (row & ? & _). eauto.
Qed.

Lemma normalize_found r o :
  o <> [] -> response_ok o = true ->
  Forall (fun k => sqlite_takes (dict_get o k)) ["Director"; "Plot"; "BoxOffice"; "imdbID"] ->
  json_encodable (JObj (other_of o)) = true ->
  exists row, norm r (JObj o) = inr (Some row) /\
              e_imdb_rating row = imdb_rating_of float_of_str float_of_int o /\
              e_other_fields row = other_of o.
Proof.
  intros Ho Hr Hf Henc. destruct (build_row_takes r o Hf Henc) as (row & Hrow & ? & ?).
  exists row. unfold normalize. destruct o; [done|]. simpl. by rewrite Hr, Hrow.
Qed.

Lemma normalize_inv r d row :
  norm r d = inr (Some row) ->
  exists o, d = JObj o /\ o <> [] /\ response_ok o = true /\
            build_row float_of_str float_of_int r o = inr row.
Proof.
  unfold normalize. intros H.
  destruct (truthy d) eqn:Ht; [|done].
  destruct d as [| | | | | |o]; try done.
  destruct (response_ok o) eqn:Hr; [|done].
  destruct (build_row _ _ r o) as [|row'] eqn:Hb; [done|].
  exists o. simplify_eq. split; [done|]. split; [by destruct o|]. done.
Qed.

Lemma build_row_other r o row :
  build_row float_of_str float_of_int r o = inr row -> e_other_fields row = other_of o.
Proof.
  unfold build_row. intros H. repeat case_match; by simplify_eq.
Qed.

Lemma other_of_spec o k v :
  (k, v) ∈ other_of o <-> (k, v) ∈ o /\ k ∉ other_excluded.
Proof.
  unfold other_of. rewrite !list_elem_of_In, filter_In. simpl fst.
  assert (negb (existsb (String.eqb k) other_excluded) = true
          <-> ~ In k other_excluded) as ->; [|done].
  rewrite negb_true_iff, <- not_true_iff_false, existsb_exists.
  split; intros Hk Hex; apply Hk.
  - exists k. split; [done|]. apply String.eqb_refl.
  - destruct Hex as (k' & Hin' & Heq). apply String.eqb_eq in Heq. by subst k'.
Qed.

(** A record whose value in the final cache is a non-empty payload that is
    not flagged not-found, whose parameters can all be bound and whose save
    of the cache did not raise, wrote its row, and that row is in the table
    when the run ends. *)
Lemma found_payload_written api mock (sys : @system World) r evs o :
  (r, evs) ∈ run_trace (enrich api mock sys) ->
  run_cache (enrich api mock sys) !! key_of r = Some (JObj o) ->
  o <> [] -> response_ok o = true ->
  Forall (fun k => sqlite_takes (dict_get o k)) ["Director"; "Plot"; "BoxOffice"; "imdbID"] ->
  json_encodable (JObj (other_of o)) = true ->
  Forall (fun e => is_save_failed e = false) evs ->
  exists row,
    build_row float_of_str float_of_int r o = inr row /\
    EvUpsert r.1 row ∈ evs /\
    movies_enriched (run_sys (enrich api mock sys)) !! r.1 = Some row.
Proof.
  intros Hin Hc Ho Hr Hf Henc Hsave.
  destruct (enrich_movies_loop api mock sys) as (s' & res & Hloop & Hc' & He & _).
  rewrite Hc' in Hc. rewrite He.
  pose proof (trace_data _ _ _ _ _ _ _ _ _ Hloop Hin) as Hd. rewrite Hc in Hd.
  assert (save_failed evs = false) as Hsf.
  { unfold save_failed. apply not_true_iff_false. intros Hex.
    apply existsb_exists in Hex as (e & He' & Hbad).
    apply list_elem_of_In in He'. eapply Forall_forall in Hsave; [|done]. congruence. }
  rewrite Hsf in Hd.
  destruct (normalize_found r o Ho Hr Hf Henc) as (row & Hn & _).
  rewrite Hn in Hd. exists row.
  assert (EvUpsert r.1 row ∈ evs) as Hup.
  { apply elem_of_upserts. rewrite Hd. by left. }
  repeat split; try done.
  - apply normalize_inv in Hn as (o' & ? & _ & _ & ?). by simplify_eq.
  - eapply loop_written; [apply select_movies_NoDup|done..].
Qed.

(** Once a key is in the cache, every later record with that key takes the
    cache-hit path: its only possible event is the write of its row. *)
Lemma loop_hit_trace api mock rows (s : @state World) tr s' res k :
  loop api mock rows s = (tr, s', res) -> is_Some (cache s !! k) ->
  Forall (fun p => key_of p.1 = k -> Forall (fun e => is_upsert e = true) p.2) tr.
Proof.
  intros Hloop [d Hd]. apply Forall_forall. intros [r evs] Hin Hk. simpl in *.
  apply list_elem_of_split in Hin as (pre & post & ->).
  apply loop_split in Hloop as (s1 & s2 & res_r & _ & _ & Hsub & Hstep & _).
  apply Forall_forall. eapply hit_events; [done|].
  exists d. subst k. by eapply lookup_weaken.
Qed.

(** C3 (amended): the delay of 0.1 is executed only for a record that
    missed the cache and was resolved: in live mode only when a network call
    was made for that record, in mock mode after a miss resolved from the
    mock mapping.  Such a mock-mode miss does execute the delay, right after
    the cache file is saved, although no network call is made; the one
    mock-mode miss without a delay is the one whose save of the cache
    raises, which ends the run. *)
Theorem delay_after_every_resolved_miss api mock (sys : @system World) :
  Forall (fun p =>
            Forall (fun e =>
                      match e with
                      | EvSleep secs =>
                          secs = 0.1%float /\
                          load_cache (omdb_cache sys) !! key_of p.1 = None /\
                          (is_Some mock \/ Exists (fun q => is_query q = true) p.2)
                      | _ => True
                      end) p.2)
         (run_trace (enrich api mock sys)) /\
  (forall m (s : @state World) r,
     cache s !! key_of r = None ->
     exists rest,
       (step api (Some m) s r).1.1
       = (if cache_encodable (<[key_of r := default JNull (m !! key_of r)]> (cache s))
          then EvSaveCache (<[key_of r := default JNull (m !! key_of r)]> (cache s))
               :: EvSleep 0.1%float :: rest
          else [EvSaveFailed (<[key_of r := default JNull (m !! key_of r)]> (cache s))]) /\
       Forall (fun e => is_query e = false) (step api (Some m) s r).1.1).
Proof.
  split.
  - apply Forall_forall. intros [r evs] Hin. simpl.
    apply trace_step in Hin as (s1 & s2 & res_r & Hsub & Hstep & _).
    apply step_events in Hstep. simpl in Hstep.
    destruct (cache s1 !! key_of r) as [d|] eqn:Hk.
    { destruct Hstep as (-> & _). destruct (norm r d) as [?|[?|]]; by repeat constructor. }
    pose proof (lookup_weaken_None _ _ _ Hk Hsub) as Hk0.
    destruct mock as [m|].
    { destruct Hstep as (-> & _).
      assert (is_Some (Some m)) by eauto.
      destruct (cache_encodable _); [|by repeat constructor].
      destruct (norm r _) as [?|[?|]];
        repeat (apply Forall_cons; split); try apply Forall_nil; auto. }
    destruct (api_key_set api); [|destruct Hstep as (-> & _); by repeat constructor].
    destruct Hstep as (-> & _).
    destruct (query_omdb _ _ _ _ _) as [[msg|d] w']; simpl.
    + destruct (cache_encodable _); [|by repeat constructor].
      repeat (apply Forall_cons; split); try apply Forall_nil; try done.
      repeat split; try done. right. by apply Exists_cons_hd.
    + destruct (cache_encodable _); [|by repeat constructor].
      destruct (norm r d) as [?|[?|]];
        repeat (apply Forall_cons; split); try apply Forall_nil; try done;
        (repeat split; try done; right; by apply Exists_cons_hd).
  - intros m s r Hk.
    destruct (step api (Some m) s r) as [[evs s'] res] eqn:Hstep. simpl.
    apply step_events in Hstep. simpl in Hstep. rewrite Hk in Hstep.
    destruct Hstep as (-> & _).
    destruct (cache_encodable _); [|exists []; by repeat constructor].
    eexists. split; [done|].
    destruct (norm r _) as [?|[?|]]; by repeat constructor.
Qed.


(** ** The cache key *)

(** The decimal text of a number is never the text of [None]. *)
Lemma pretty_N_go_not_None x s :
  s = "" \/ (exists c s', s = String c s' /\ c <> "N"%char) ->
  pretty_N_go x s = "" \/ exists c s', pretty_N_go x s = String c s' /\ c <> "N"%char.
Proof.
  revert s. induction (N.lt_wf_0 x) as [x _ IH]; intros s Hs.
  destruct (decide (x = 0)%N) as [->|Hx].
  { by rewrite pretty_N_go_0. }
  rewrite pretty_N_go_step by lia. apply IH.
  { apply N.div_lt; lia. }
  right. eexists _, _. split; [done|].
  unfold pretty_N_char. by repeat case_match.
Qed.

Lemma str_year_not_None y : str_year (Some y) <> "None".
Proof.
  unfold str_year, pretty, pretty_Z.
  assert (forall p, pretty (N.pos p) <> "None") as Hpos.
  { intros p. unfold pretty, pretty_N. simpl.
    destruct (pretty_N_go_not_None (N.pos p) "") as [->|(c & s' & -> & Hc)];
      [by left|done|]. intros ?. by simplify_eq. }
  destruct y as [|p|p]; [done|apply Hpos|done].
Qed.

Lemma list_ascii_of_string_app (a b : string) :
  list_ascii_of_string (a +:+ b)
  = (list_ascii_of_string a ++ list_ascii_of_string b)%list.
Proof. induction a as [|c a IH]; simpl; [done|]. by rewrite IH. Qed.

Lemma pretty_N_go_no_bar x s :
  Forall (fun c => c <> "|"%char) (list_ascii_of_string s) ->
  Forall (fun c => c <> "|"%char) (list_ascii_of_string (pretty_N_go x s)).
Proof.
  revert s. induction (N.lt_wf_0 x) as [x _ IH]; intros s Hs.
  destruct (decide (x = 0)%N) as [->|Hx].
  { by rewrite pretty_N_go_0. }
  rewrite pretty_N_go_step by lia. apply IH.
  { apply N.div_lt; lia. }
  simpl. constructor; [|done].
  unfold pretty_N_char. by repeat case_match.
Qed.

Lemma str_year_no_bar y :
  Forall (fun c => c <> "|"%char) (list_ascii_of_string (str_year y)).
Proof.
  destruct y as [y|]; [|by repeat constructor].
  unfold str_year, pretty, pretty_Z.
  assert (forall p, Forall (fun c => c <> "|"%char)
                      (list_ascii_of_string (pretty (N.pos p)))) as Hpos.
  { intros p. unfold pretty, pretty_N. simpl. apply pretty_N_go_no_bar. constructor. }
  destruct y as [|p|p]; [by repeat constructor|apply Hpos|].
  simpl. constructor; [done|apply Hpos].
Qed.

Lemma split_at_last (c : ascii) l1 s1 l2 s2 :
  (l1 ++ c :: s1 = l2 ++ c :: s2)%list ->
  Forall (fun a => a <> c) s1 -> Forall (fun a => a <> c) s2 ->
  l1 = l2 /\ s1 = s2.
Proof.
  intros Heq H1 H2. revert l2 Heq.
  induction l1 as [|a l1 IH]; intros [|b l2] Heq; simplify_eq/=.
  - done.
  - apply Forall_app in H1 as [_ H1]. apply Forall_cons in H1 as [? _]. done.
  - apply Forall_app in H2 as [_ H2]. apply Forall_cons in H2 as [? _]. done.
  - destruct (IH l2) as [-> ->]; done.
Qed.

Lemma str_year_inj y1 y2 : str_year y1 = str_year y2 -> y1 = y2.
Proof.
  destruct y1 as [y1|], y2 as [y2|]; intros H; try done.
  - f_equal. by apply (inj pretty).
  - by apply str_year_not_None in H.
  - symmetry in H. by apply str_year_not_None in H.
Qed.

(** The text after the last separator of a key is the year, the text
    before it the title. *)
Lemma key_of_parts (r1 r2 : Z * movie_row) :
  key_of r1 = key_of r2 ->
  list_ascii_of_string (m_title r1.2) = list_ascii_of_string (m_title r2.2) /\
  list_ascii_of_string (str_year (m_year r1.2)) = list_ascii_of_string (str_year (m_year r2.2)).
Proof.
  unfold key_of, cache_key. intros H.
  apply (f_equal list_ascii_of_string) in H.
  rewrite !list_ascii_of_string_app in H. simpl in H.
  apply split_at_last in H; [done|apply str_year_no_bar..].
Qed.

(** C5: the key the loop uses is the title, a bar and the year, the absent
    year being spelled [None]; two records have the same key exactly when
    they have the same title and the same year (so the key of an absent year
    differs from the key of every present year); and in a run, a record
    that comes after another one with the same title and year never causes
    a second external lookup: when the first one was resolved (anything
    but the skip for want of a credential), the later one takes the
    cache-hit path, where the only possible event is the write of its
    row. *)
Theorem one_lookup_per_title_year :
  (forall r : Z * movie_row,
     key_of r = m_title r.2 +:+ "|" +:+ match m_year r.2 with
                                        | Some y => pretty y
                                        | None => "None"
                                        end) /\
  (forall r1 r2 : Z * movie_row,
     key_of r1 = key_of r2 <-> m_title r1.2 = m_title r2.2 /\ m_year r1.2 = m_year r2.2) /\
  (forall api mock (sys : @system World) pre r1 e1 post,
     run_trace (enrich api mock sys) = (pre ++ (r1, e1) :: post)%list ->
     Forall (fun p =>
               m_title p.1.2 = m_title r1.2 -> m_year p.1.2 = m_year r1.2 ->
               (Exists (fun e => is_query e = true) e1 ->
                Forall (fun e => is_query e = false) p.2) /\
               (e1 <> [EvLog ("No API key provided and no mock entry for "
                              +:+ key_of r1 +:+ " -> skipping")] ->
                Forall (fun e => is_upsert e = true) p.2))
            post).
Proof.
  split; [|split].
  - intros r. unfold key_of, cache_key, str_year. by destruct (m_year r.2).
  - intros r1 r2. split.
    + intros H. apply key_of_parts in H as [Ht Hy]. split.
      * rewrite <- (string_of_list_ascii_of_string (m_title r1.2)), Ht.
        apply string_of_list_ascii_of_string.
      * apply str_year_inj.
        rewrite <- (string_of_list_ascii_of_string (str_year (m_year r1.2))), Hy.
        apply string_of_list_ascii_of_string.
    + intros [Ht Hy]. unfold key_of. by rewrite Ht, Hy.
  - intros api mock sys pre r1 e1 post Htr.
    destruct (enrich_movies_loop api mock sys) as (s' & res & Hloop & _).
    rewrite Htr in Hloop.
    apply loop_split in Hloop as (s1 & s2 & res_r & rows2 & res2 & _ & Hstep & Hrest).
    pose proof (step_spec _ _ _ _ _ _ _ Hstep) as (_ & _ & Hd).
    assert (e1 <> [EvLog ("No API key provided and no mock entry for "
                          +:+ key_of r1 +:+ " -> skipping")] ->
            Forall (fun p => key_of p.1 = key_of r1 ->
                             Forall (fun e => is_upsert e = true) p.2) post) as Hhit.
    { intros Hne. eapply loop_hit_trace; [done|].
      destruct (save_failed e1); [by destruct Hd as (_ & _ & _ & _ & _ & ? & _)|].
      destruct Hd as (_ & Hd).
      destruct (cache s2 !! key_of r1); [eauto|]. by destruct Hd as (_ & _ & _ & _ & ?). }
    apply Forall_forall. intros p Hp Ht Hy.
    assert (key_of p.1 = key_of r1) as Hkey by (unfold key_of; by rewrite Ht, Hy).
    split.
    + intros Hq. assert (Forall (fun e => is_upsert e = true) p.2) as Hup.
      { eapply Forall_forall in Hhit; [by apply Hhit|..|done].
        intros ->. apply Exists_cons in Hq as [?|Hq]; [done|].
        by apply Exists_nil in Hq. }
      eapply Forall_impl; [done|]. intros e He. by destruct e.
    + intros Hne. eapply Forall_forall in Hhit; [by apply Hhit|done..].
Qed.

(** ** Rows written *)

(** C6 (amended): a record whose resolved payload is present and not
    flagged not-found and whose external-rating string does not parse as a
    number is persisted all the same, its row being written with the
    external rating absent and being in the table when the run ends,
    provided the [INSERT] is reached and can be executed: the save of the
    cache for the record, if there was one, did not raise; the director,
    plot, box office and identifier of the payload are each absent, null,
    a boolean, a float, an integer of 64 bits or a string without a lone
    surrogate; and no key or string among the other fields holds a lone
    surrogate. *)
Theorem unparsable_rating_row_written api mock (sys : @system World) r evs o x :
  (r, evs) ∈ run_trace (enrich api mock sys) ->
  run_cache (enrich api mock sys) !! key_of r = Some (JObj o) ->
  response_ok o = true ->
  assoc_get o "imdbRating" = Some (JStr x) ->
  float_of_str x = None ->
  Forall (fun e => is_save_failed e = false) evs ->
  Forall (fun k => sqlite_takes (dict_get o k)) ["Director"; "Plot"; "BoxOffice"; "imdbID"] ->
  json_encodable (JObj (other_of o)) = true ->
  exists row,
    EvUpsert r.1 row ∈ evs /\ e_imdb_rating row = None /\
    movies_enriched (run_sys (enrich api mock sys)) !! r.1 = Some row.
Proof.
  intros Hin Hc Hr Hx Hf Hsave Hb Henc.
  assert (o <> []) as Ho by (by destruct o).
  destruct (found_payload_written _ _ _ _ _ _ Hin Hc Ho Hr Hb Henc Hsave)
    as (row & Hrow & Hup & Hfin).
  exists row. repeat split; try done.
  destruct (build_row_takes r o Hb Henc) as (row' & Hrow' & Hrat & _).
  assert (row' = row) as -> by congruence.
  rewrite Hrat. unfold imdb_rating_of, dict_get. rewrite Hx. simpl.
  rewrite Hf. by destruct (_ && _).
Qed.

(** C8 (amended): for every row written, the other-fields value holds
    exactly the items of the payload whose key is none of the eight names
    the code leaves out: the five extracted fields and also Title, Year
    and Genre.  Every other item of the payload is kept as it is, in the
    payload's order. *)
Theorem other_fields_exclude_eight api mock (sys : @system World) :
  Forall (fun p =>
            Forall (fun e =>
                      match e with
                      | EvUpsert i row =>
                          exists o,
                            run_cache (enrich api mock sys) !! key_of p.1 = Some (JObj o) /\
                            i = p.1.1 /\
                            e_other_fields row = other_of o /\
                            forall k v, (k, v) ∈ e_other_fields row
                                        <-> (k, v) ∈ o /\ k ∉ other_excluded
                      | _ => True
                      end) p.2)
         (run_trace (enrich api mock sys)).
Proof.
  destruct (enrich_movies_loop api mock sys) as (s' & res & Hloop & -> & _).
  apply Forall_forall. intros [r evs] Hin. apply Forall_forall. intros e He.
  destruct e as [| | | | |i row]; try done. simpl in *.
  pose proof (trace_data _ _ _ _ _ _ _ _ _ Hloop Hin) as Hd.
  apply (proj2 (elem_of_upserts _ _ _)) in He.
  destruct (cache s' !! key_of r) as [d|]; last first.
  { destruct Hd as (_ & _ & ->). by apply elem_of_nil in He. }
  rewrite Hd in He.
  destruct (save_failed evs); [by apply elem_of_nil in He|].
  destruct (norm r d) as [?|[row'|]] eqn:Hn; try by apply elem_of_nil in He.
  apply list_elem_of_singleton in He. simplify_eq.
  apply normalize_inv in Hn as (o & -> & _ & _ & Hrow).
  apply build_row_other in Hrow.
  exists o. split; [done|]. split; [done|]. split; [done|].
  intros k v. rewrite Hrow. apply other_of_spec.
Qed.

(** C9 (amended): the not-found branch fires only when the payload has a
    "Response" item that is exactly the string "False"; a record whose
    resolved payload is a non-empty mapping without a "Response" item is
    treated as found, its row being written and being in the table when
    the run ends, provided the [INSERT] is reached and can be executed: the
    save of the cache for the record, if there was one, did not raise; the
    director, plot, box office and identifier of the payload are each
    absent, null, a boolean, a float, an integer of 64 bits or a string
    without a lone surrogate; and no key or string among the other fields
    holds a lone surrogate. *)
Theorem missing_response_counts_as_found :
  (forall o, response_ok o = false <-> assoc_get o "Response" = Some (JStr "False")) /\
  (forall api mock (sys : @system World) r evs o,
     (r, evs) ∈ run_trace (enrich api mock sys) ->
     run_cache (enrich api mock sys) !! key_of r = Some (JObj o) ->
     o <> [] ->
     assoc_get o "Response" = None ->
     Forall (fun e => is_save_failed e = false) evs ->
     Forall (fun k => sqlite_takes (dict_get o k)) ["Director"; "Plot"; "BoxOffice"; "imdbID"] ->
     json_encodable (JObj (other_of o)) = true ->
     exists row,
       EvUpsert r.1 row ∈ evs /\
       movies_enriched (run_sys (enrich api mock sys)) !! r.1 = Some row).
Proof.
  split.
  - intros o. unfold response_ok, dict_get_default, eq_str.
    destruct (assoc_get o "Response") as [[| | | |s| |]|]; simpl;
      try (split; intros ?; by simplify_eq).
    rewrite negb_false_iff, String.eqb_eq. split; intros ?; by simplify_eq.
  - intros api mock sys r evs o Hin Hc Ho Hresp Hsave Hb Henc.
    assert (response_ok o = true) as Hr.
    { unfold response_ok, dict_get_default. by rewrite Hresp. }
    destruct (found_payload_written _ _ _ _ _ _ Hin Hc Ho Hr Hb Henc Hsave) as (row & _ & ? & ?).
    by exists row.
Qed.

(** ** The request *)

(** X7: [query_omdb] makes exactly one request; the request always carries the
    title, carries the year only when it is present and not 0, and the
    credential only when it is not empty; a payload comes back only from a
    reply with status 200 whose body decodes, anything else is raised. *)
Theorem query_omdb_outcome (w : World) title year api :
  exists params,
    (query_omdb requests_get w title year api).2 = (requests_get w params).2 /\
    ("t", title) ∈ params /\
    (forall v, ("y", v) ∈ params <-> exists y, year = Some y /\ y <> 0%Z /\ v = pretty y) /\
    (forall v, ("apikey", v) ∈ params <-> api = Some v /\ v <> "") /\
    (forall d, (query_omdb requests_get w title year api).1 = inr d
               <-> (requests_get w params).1 = HttpReply 200 (inr d)).
Proof.
  unfold query_omdb.
  set (params := ([("t", title)] ++ _ ++ _)%list).
  exists params. split; [|split; [|split; [|split]]].
  - destruct (requests_get w params) as [[msg|st body] w']; [done|].
    by destruct (negb _).
  - subst params. by left.
  - intros v. subst params. rewrite !elem_of_app, list_elem_of_singleton.
    split.
    + intros [?|[Hy|Hk]]; [done| |].
      * destruct year as [y|]; [|by apply elem_of_nil in Hy].
        destruct (Z.eqb_spec y 0); [by apply elem_of_nil in Hy|].
        apply list_elem_of_singleton in Hy. simplify_eq. eauto.
      * destruct api as [k|]; [|by apply elem_of_nil in Hk].
        destruct (String.eqb k ""); [by apply elem_of_nil in Hk|].
        by apply list_elem_of_singleton in Hk.
    + intros (y & -> & Hy & ->). right. left.
      destruct (Z.eqb_spec y 0); [done|]. by left.
  - intros v. subst params. rewrite !elem_of_app, list_elem_of_singleton.
    split.
    + intros [?|[Hy|Hk]]; [done| |].
      * destruct year as [y|]; [|by apply elem_of_nil in Hy].
        destruct (Z.eqb y 0); [by apply elem_of_nil in Hy|].
        by apply list_elem_of_singleton in Hy.
      * destruct api as [k|]; [|by apply elem_of_nil in Hk].
        destruct (String.eqb_spec k ""); [by apply elem_of_nil in Hk|].
        apply list_elem_of_singleton in Hk. by simplify_eq.
    + intros [-> Hv]. right. right.
      destruct (String.eqb_spec v ""); [done|]. by left.
  - intros d. destruct (requests_get w params) as [[msg|st body] w']; simpl.
    { split; intros ?; done. }
    destruct (Z.eqb_spec st 200) as [->|Hne]; simpl.
    + split; intros ?; by simplify_eq.
    + split; intros ?; by simplify_eq.
Qed.

(** ** The counters *)

Lemma step_counters api mock (s : @state World) r evs s' res :
  step api mock s r = (evs, s', res) ->
  processed s' = (processed s + length (upserts evs))%nat /\
  hits s' = (hits s + if forallb is_upsert evs then 1 else 0)%nat /\
  misses s' = (misses s + if existsb is_save evs then 1 else 0)%nat /\
  size (cache s') = (size (cache s) + if existsb is_save evs then 1 else 0)%nat.
Proof.
  unfold enrich_record, resolve, record_miss, save_cache, persist.
  destruct (cache s !! key_of r) as [d|] eqn:Hk.
  { destruct (norm r d) as [?|[?|]]; intros H; simplify_eq/=; repeat split; lia. }
  assert (forall d, size (<[key_of r := d]> (cache s)) = S (size (cache s))) as Hsize
    by (intros; by apply map_size_insert_None).
  destruct mock as [m|].
  { destruct (cache_encodable _); simpl;
      [destruct (norm r _) as [?|[?|]]|]; intros H; simplify_eq/=;
      rewrite Hsize; repeat split; lia. }
  destruct (api_key_set api); simpl; last first.
  { intros H. simplify_eq/=. repeat split; lia. }
  destruct (query_omdb _ _ _ _ _) as [[msg|d] w'].
  - destruct (cache_encodable _); simpl; intros H; simplify_eq/=;
      rewrite Hsize; repeat split; lia.
  - destruct (cache_encodable _); simpl;
      [destruct (norm r _) as [?|[?|]]|]; intros H; simplify_eq/=;
      rewrite Hsize; repeat split; lia.
Qed.

Lemma loop_counters api mock rows (s : @state World) tr s' res :
  loop api mock rows s = (tr, s', res) ->
  processed s' = (processed s + length (writes tr))%nat /\
  hits s' = (hits s + count_hits tr)%nat /\
  misses s' = (misses s + count_misses tr)%nat /\
  size (cache s') = (size (cache s) + count_misses tr)%nat.
Proof.
  revert s tr s' res. induction rows as [|r rows IH]; intros s tr s' res H; simpl in H.
  { simplify_eq/=. unfold count_hits, count_misses. simpl. repeat split; lia. }
  destruct (step api mock s r) as [[evs s1] res1] eqn:Hstep.
  apply step_counters in Hstep as (Hp & Hh & Hm & Hs).
  assert (forall tr1, length (writes ((r, evs) :: tr1))
                      = (length (upserts evs) + length (writes tr1))%nat) as Hw.
  { intros tr1. unfold writes. simpl. by rewrite length_app. }
  assert (forall tr1, count_hits ((r, evs) :: tr1)
                      = ((if forallb is_upsert evs then 1 else 0) + count_hits tr1)%nat)
    as Hch.
  { intros tr1. unfold count_hits. simpl. by destruct (forallb is_upsert evs). }
  assert (forall tr1, count_misses ((r, evs) :: tr1)
                      = ((if existsb is_save evs then 1 else 0) + count_misses tr1)%nat)
    as Hcm.
  { intros tr1. unfold count_misses. simpl. by destruct (existsb is_save evs). }
  destruct res1 as [e|].
  - simplify_eq/=. rewrite Hw, Hch, Hcm.
    unfold writes, count_hits, count_misses. simpl. repeat split; lia.
  - destruct (loop api mock rows s1) as [[tr1 s2] res2] eqn:Hloop.
    apply IH in Hloop as (Hp' & Hh' & Hm' & Hs'). simplify_eq/=.
    rewrite Hw, Hch, Hcm. repeat split; lia.
Qed.

(** X8: The summary of a run says what the run did: when [enrich_movies]
    returns, its last two actions are a save of the cache and the log line
    whose three numbers are the rows written, the records that hit the
    cache and the records that missed it and were resolved.  When an
    exception leaves it the summary is never written: nothing follows the
    loop, or only the final save, which raised.  In every case the cache
    has gained exactly one key for each miss. *)
Theorem summary_counts_the_run api mock (sys : @system World) :
  let R := enrich api mock sys in
  match run_exn R with
  | None =>
      run_tail R
      = [EvSaveCache (run_cache R);
         EvLog ("Enrichment done. Processed:" +:+ pretty (length (writes (run_trace R)))
                +:+ " cache_hits:" +:+ pretty (count_hits (run_trace R))
                +:+ " cache_misses:" +:+ pretty (count_misses (run_trace R)))]
  | Some e =>
      run_tail R = [] \/
      (e = UnicodeEncodeError /\ run_tail R = [EvSaveFailed (run_cache R)])
  end /\
  size (run_cache R)
  = (size (load_cache (omdb_cache sys)) + count_misses (run_trace R))%nat.
Proof.
  intros R. subst R.
  destruct (enrich_movies_loop api mock sys) as (s' & res & Hloop & -> & _ & _ & _ & Hend).
  apply loop_counters in Hloop as (Hp & Hh & Hm & Hs). simpl in *.
  split; [|done].
  destruct res as [e|].
  - destruct Hend as (-> & -> & _). by left.
  - destruct (cache_encodable (cache s')); destruct Hend as (-> & -> & _).
    + by rewrite Hp, Hh, Hm.
    + by right.
Qed.

(** ** The cache over a run *)

Lemma loop_new_keys api mock rows (s : @state World) tr s' res k :
  loop api mock rows s = (tr, s', res) ->
  is_Some (cache s' !! k) ->
  is_Some (cache s !! k) \/ exists r evs, (r, evs) ∈ tr /\ key_of r = k.
Proof.
  revert s tr s' res. induction rows as [|r rows IH]; intros s tr s' res H Hk; simpl in H.
  { simplify_eq/=. by left. }
  destruct (step api mock s r) as [[evs s1] res1] eqn:Hstep.
  assert (is_Some (cache s1 !! k) ->
          is_Some (cache s !! k) \/ key_of r = k) as Hone.
  { intros Hk1. apply step_events in Hstep. simpl in Hstep.
    destruct (decide (key_of r = k)) as [|Hne]; [by right|left].
    destruct (cache s !! key_of r).
    { destruct Hstep as (_ & <- & _). done. }
    destruct mock as [m|].
    { destruct Hstep as (_ & Hc & _). by rewrite Hc, lookup_insert_ne in Hk1. }
    destruct (api_key_set api).
    - destruct Hstep as (_ & Hc & _). by rewrite Hc, lookup_insert_ne in Hk1.
    - by destruct Hstep as (_ & -> & _). }
  destruct res1 as [e|].
  - simplify_eq/=. destruct (Hone Hk) as [?|?]; [by left|].
    right. exists r, evs. split; [by left|done].
  - destruct (loop api mock rows s1) as [[tr1 s2] res2] eqn:Hloop. simplify_eq/=.
    destruct (IH _ _ _ _ Hloop Hk) as [Hk1|(r' & evs' & ? & ?)].
    + destruct (Hone Hk1) as [?|?]; [by left|].
      right. exists r, evs. split; [by left|done].
    + right. exists r', evs'. split; [by right|done].
Qed.

(** X9: The cache file after a run, for a cache file that was missing,
    unreadable or a JSON object.  When [enrich_movies] ends, by returning
    or by an exception, the file holds exactly the cache mapping the run
    ended with, unless a save of the cache raised, for the last record
    reached or after the loop: then the run ended with
    [UnicodeEncodeError], the file is left empty and the mapping holds a
    key or a value that cannot be encoded.  So the file holds the mapping
    whenever the mapping can be encoded.  The mapping extends the one
    loaded (no stored value is changed or dropped), and each key it gained
    is the key of a record the run reached. *)
Theorem cache_file_keeps_every_result api mock (sys : @system World) :
  let R := enrich api mock sys in
  (load_cache (omdb_cache (run_sys R)) = run_cache R \/
   (omdb_cache (run_sys R) = FileCorrupt /\ run_exn R = Some UnicodeEncodeError /\
    cache_encodable (run_cache R) = false /\
    ((exists pre r evs, run_trace R = (pre ++ [(r, evs)])%list /\
                        EvSaveFailed (run_cache R) ∈ evs) \/
     run_tail R = [EvSaveFailed (run_cache R)]))) /\
  (cache_encodable (run_cache R) = true ->
   load_cache (omdb_cache (run_sys R)) = run_cache R) /\
  load_cache (omdb_cache sys) ⊆ run_cache R /\
  (forall k, is_Some (run_cache R !! k) ->
             is_Some (load_cache (omdb_cache sys) !! k) \/
             exists r evs, (r, evs) ∈ run_trace R /\ key_of r = k).
Proof.
  intros R. subst R.
  destruct (enrich_movies_loop api mock sys) as (s' & res & Hloop & -> & _ & _ & _ & Hend).
  pose proof (loop_spec _ _ _ _ _ _ _ Hloop) as (Hsub & _ & Hsync & Hfail).
  assert (load_cache (omdb_cache (run_sys (enrich api mock sys))) = cache s' \/
          (omdb_cache (run_sys (enrich api mock sys)) = FileCorrupt /\
           run_exn (enrich api mock sys) = Some UnicodeEncodeError /\
           cache_encodable (cache s') = false /\
           ((exists pre r evs, run_trace (enrich api mock sys) = (pre ++ [(r, evs)])%list /\
                               EvSaveFailed (cache s') ∈ evs) \/
            run_tail (enrich api mock sys) = [EvSaveFailed (cache s')]))) as Hfile.
  { destruct res as [e|].
    - destruct Hend as (-> & _ & ->).
      destruct Hfail as [Hok|(? & Hf & Henc & _ & Hlast)].
      + left. by apply Hsync.
      + right. simplify_eq. repeat split; try done. by left.
    - destruct (cache_encodable (cache s')) eqn:Henc; destruct Hend as (-> & -> & ->).
      + by left.
      + right. repeat split; try done. by right. }
  split; [done|]. split; [|split].
  - intros Henc. destruct Hfile as [?|(_ & _ & Hno & _)]; [done|congruence].
  - done.
  - intros k Hk. by eapply (loop_new_keys _ _ _ _ _ _ _ _ Hloop).
Qed.

(** ** Mock mode *)

Lemma loop_mock_offline api m rows (s : @state World) tr s' res :
  loop api (Some m) rows s = (tr, s', res) ->
  world s' = world s /\
  Forall (fun p => Forall (fun e => is_query e = false) p.2) tr.
Proof.
  revert s tr s' res. induction rows as [|r rows IH]; intros s tr s' res H; simpl in H.
  { by simplify_eq/=. }
  destruct (step api (Some m) s r) as [[evs s1] res1] eqn:Hstep.
  assert (world s1 = world s /\ Forall (fun e => is_query e = false) evs) as [Hw Hq].
  { apply step_events in Hstep. simpl in Hstep.
    destruct (cache s !! key_of r) as [d|]; destruct Hstep as (-> & _ & ->);
      (split; [done|]); try destruct (cache_encodable _);
      try destruct (norm r _) as [?|[?|]]; by repeat constructor. }
  destruct res1 as [e|].
  - simplify_eq/=. split; [done|]. by repeat constructor.
  - destruct (loop api (Some m) rows s1) as [[tr1 s2] res2] eqn:Hloop.
    apply IH in Hloop as [Hw' Hq']. simplify_eq/=.
    split; [congruence|]. by constructor.
Qed.

(** X10: With a mock mapping, [enrich_movies] never calls the service: no record
    has a query among its events, whatever the credential, and the outside
    world is left as it was. *)
Theorem mock_mode_never_queries api m (sys : @system World) :
  net (run_sys (enrich api (Some m) sys)) = net sys /\
  Forall (fun p => Forall (fun e => is_query e = false) p.2)
         (run_trace (enrich api (Some m) sys)).
Proof.
  destruct (enrich_movies_loop api (Some m) sys) as (s' & res & Hloop & _ & _ & _ & -> & _).
  by apply loop_mock_offline in Hloop.
Qed.

(** ** How a run ends *)

Lemma loop_end api mock rows (s : @state World) tr s' res :
  loop api mock rows s = (tr, s', res) ->
  match res with
  | None => tr.*1 = rows
  | Some e =>
      exists pre r evs d,
        tr = (pre ++ [(r, evs)])%list /\ (length pre < length rows)%nat /\
        cache s' !! key_of r = Some d /\ upserts evs = [] /\
        if save_failed evs
        then e = UnicodeEncodeError /\ EvSaveFailed (cache s') ∈ evs
        else norm r d = inl e
  end.
Proof.
  revert s tr s' res. induction rows as [|r rows IH]; intros s tr s' res H; simpl in H.
  { by simplify_eq/=. }
  destruct (step api mock s r) as [[evs s1] res1] eqn:Hstep.
  apply step_spec in Hstep as (_ & _ & Hd).
  destruct res1 as [e|].
  - simplify_eq/=. exists [], r, evs.
    destruct (save_failed evs).
    { destruct Hd as (? & ? & _ & _ & _ & [d Hk] & ?). simplify_eq.
      exists d. repeat split; try done. simpl. lia. }
    destruct Hd as (_ & Hd).
    destruct (cache s' !! key_of r) as [d|]; [|by destruct Hd as (_ & ? & _)].
    exists d. destruct Hd as [Hup Hres].
    destruct (norm r d) as [e'|[?|]]; simplify_eq. repeat split; try done. simpl. lia.
  - destruct (loop api mock rows s1) as [[tr1 s2] res2] eqn:Hloop.
    apply IH in Hloop. simplify_eq/=.
    destruct res as [e|]; [|by f_equal].
    destruct Hloop as (pre & r' & evs' & d & -> & Hlen & ? & ? & ?).
    exists ((r, evs) :: pre), r', evs', d. repeat split; try done. simpl. lia.
Qed.

(** X11: How a run ends, for a cache file that was missing, unreadable or a
    JSON object.  A run that returns has gone through every row of
    [movies] once, in the order of the scan.  A run that an exception
    leaves either went through every row and raised in the final save of
    the cache, or stopped at the last record of its trace, before the end
    of the scan: that record wrote nothing, and the exception was raised
    by the save of the cache after its miss or, failing that, by
    normalizing or binding the value cached under its key. *)
Theorem run_ends_at_the_failing_record api mock (sys : @system World) :
  let R := enrich api mock sys in
  match run_exn R with
  | None => (run_trace R).*1 = select_movies (movies sys) /\ saves_ok (run_trace R)
  | Some e =>
      ((run_trace R).*1 = select_movies (movies sys) /\ saves_ok (run_trace R) /\
       run_tail R = [EvSaveFailed (run_cache R)] /\ e = UnicodeEncodeError) \/
      (run_tail R = [] /\
       exists pre r evs d,
         run_trace R = (pre ++ [(r, evs)])%list /\
         (length pre < length (select_movies (movies sys)))%nat /\
         run_cache R !! key_of r = Some d /\
         Forall (fun ev => is_upsert ev = false) evs /\
         if save_failed evs
         then e = UnicodeEncodeError /\ EvSaveFailed (run_cache R) ∈ evs
         else norm r d = inl e)
  end.
Proof.
  intros R. subst R.
  destruct (enrich_movies_loop api mock sys) as (s' & res & Hloop & -> & _ & _ & _ & Hend).
  pose proof (loop_end _ _ _ _ _ _ _ Hloop) as Hle.
  destruct res as [e|].
  - destruct Hend as (-> & -> & _). right. split; [done|].
    destruct Hle as (pre & r & evs & d & ? & ? & ? & Hup & ?).
    exists pre, r, evs, d. repeat split; try done. by apply upserts_nil_Forall.
  - apply loop_returns_saves_ok in Hloop.
    destruct (cache_encodable (cache s')).
    + by destruct Hend as (-> & _).
    + destruct Hend as (-> & -> & _). left. by repeat split.
Qed.

(** ** Where an enriched row comes from *)

Lemma apply_writes_lookup_inv ws t (i : Z) row :
  apply_writes ws t !! i = Some row -> (i, row) ∈ ws \/ t !! i = Some row.
Proof.
  revert t. induction ws as [|[j row'] ws IH]; intros t H; [by right|].
  change (apply_writes ws (<[j := row']> t) !! i = Some row) in H.
  apply IH in H as [?|H]; [left; by right|].
  destruct (decide (j = i)) as [->|Hne].
  - rewrite lookup_insert_eq in H. simplify_eq. left. by left.
  - rewrite lookup_insert_ne in H by done. by right.
Qed.

Lemma build_row_base r o row :
  build_row float_of_str float_of_int r o = inr row ->
  e_title row = m_title r.2 /\ e_year row = m_year r.2 /\ e_genres row = m_genres r.2.
Proof.
  unfold build_row. intros H. repeat case_match; by simplify_eq.
Qed.

(** X12: Every row of the enriched table after a run is either the row that was
    there before, or a row written for a base record with the same id,
    whose title, year and genres it copies. *)
Theorem enriched_row_has_base_record api mock (sys : @system World) i row :
  movies_enriched (run_sys (enrich api mock sys)) !! i = Some row ->
  movies_enriched sys !! i = Some row \/
  exists base, movies sys !! i = Some base /\
               e_title row = m_title base /\ e_year row = m_year base /\
               e_genres row = m_genres base.
Proof.
  destruct (enrich_movies_loop api mock sys) as (s' & res & Hloop & _ & -> & _).
  pose proof (loop_spec _ _ _ _ _ _ _ Hloop) as (_ & -> & _). simpl.
  intros H. apply apply_writes_lookup_inv in H as [Hw|?]; [right|by left].
  apply elem_of_writes_inv in Hw as (r & evs & Hin & Hw).
  pose proof (loop_rows _ _ _ _ _ _ _ Hloop) as [[rest Hpre] _].
  assert (r ∈ select_movies (movies sys)) as Hr.
  { rewrite Hpre. apply elem_of_app. left.
    apply list_elem_of_fmap. by exists (r, evs). }
  pose proof (trace_data _ _ _ _ _ _ _ _ _ Hloop Hin) as Hd.
  destruct (cache s' !! key_of r) as [d|]; last first.
  { destruct Hd as (_ & _ & ->). by apply elem_of_nil in Hw. }
  rewrite Hd in Hw.
  destruct (save_failed evs); [by apply elem_of_nil in Hw|].
  destruct (norm r d) as [?|[row'|]] eqn:Hn; try by apply elem_of_nil in Hw.
  apply list_elem_of_singleton in Hw. simplify_eq.
  apply normalize_inv in Hn as (o & _ & _ & _ & Hrow).
  apply build_row_base in Hrow as (? & ? & ?).
  destruct r as [j base]. apply elem_of_select_movies in Hr.
  exists base. by repeat split.
Qed.

(** ** The cache key, again *)

(** X13: Two base records share a cache key only when they have the same title
    and the same year, even when a title contains the separator. *)
Theorem cache_key_inj t1 y1 t2 y2 :
  cache_key t1 y1 = cache_key t2 y2 -> t1 = t2 /\ y1 = y2.
Proof.
  unfold cache_key. intros H.
  apply (f_equal list_ascii_of_string) in H.
  rewrite !list_ascii_of_string_app in H. simpl in H.
  apply split_at_last in H as [Ht Hy]; [|apply str_year_no_bar..].
  split.
  - rewrite <- (string_of_list_ascii_of_string t1), Ht.
    apply string_of_list_ascii_of_string.
  - apply str_year_inj.
    rewrite <- (string_of_list_ascii_of_string (str_year y1)), Hy.
    apply string_of_list_ascii_of_string.
Qed.

(** ** An unreadable cache file *)

Lemma step_same_but_file api mock (s1 s2 : @state World) r evs s1' res :
  step api mock s1 r = (evs, s1', res) -> same_but_file s1 s2 ->
  exists s2', step api mock s2 r = (evs, s2', res) /\ same_but_file s1' s2'.
Proof.
  destruct s1 as [c1 f1 e1 w1 p1 h1 m1], s2 as [c2 f2 e2 w2 p2 h2 m2].
  unfold same_but_file. simpl. intros H (<- & <- & <- & <- & <- & <- & Hf).
  revert H. unfold enrich_record, resolve, record_miss, save_cache, persist. simpl.
  destruct (c1 !! key_of r) as [d|].
  { destruct (norm r d) as [e|[row|]]; intros Hstep; simplify_eq/=;
      eexists; (split; [reflexivity|]); simpl; by repeat split. }
  destruct mock as [m|].
  { simpl. destruct (cache_encodable _); simpl;
      [destruct (norm r (default JNull (m !! key_of r))) as [e|[row|]]|];
      intros Hstep; simplify_eq/=;
      eexists; (split; [reflexivity|]); simpl; by repeat split. }
  destruct (api_key_set api); simpl; last first.
  { intros Hstep; simplify_eq/=. eexists; (split; [reflexivity|]); simpl; by repeat split. }
  destruct (query_omdb _ _ _ _ _) as [[msg|d] w']; simpl.
  { destruct (cache_encodable _); simpl;
      intros Hstep; simplify_eq/=. eexists; (split; [reflexivity|]); simpl; by repeat split.
    eexists; (split; [reflexivity|]); simpl; by repeat split. }
  destruct (cache_encodable _); simpl;
    [destruct (norm r d) as [e|[row|]]|]; intros Hstep; simplify_eq/=;
    eexists; (split; [reflexivity|]); simpl; by repeat split.
Qed.

Lemma loop_same_but_file api mock rows (s1 s2 : @state World) tr s1' res :
  loop api mock rows s1 = (tr, s1', res) -> same_but_file s1 s2 ->
  exists s2', loop api mock rows s2 = (tr, s2', res) /\ same_but_file s1' s2'.
Proof.
  revert s1 s2 tr s1' res.
  induction rows as [|r rows IH]; intros s1 s2 tr s1' res H Hsame; simpl in *.
  { simplify_eq. by exists s2. }
  destruct (step api mock s1 r) as [[evs s1m] res1] eqn:Hstep.
  destruct (step_same_but_file _ _ _ _ _ _ _ _ Hstep Hsame) as (s2m & -> & Hsame').
  destruct res1 as [e|].
  - simplify_eq. by exists s2m.
  - destruct (loop api mock rows s1m) as [[tr1 s1f] res1] eqn:Hloop.
    destruct (IH _ _ _ _ _ Hloop Hsame') as (s2f & -> & ?).
    simplify_eq. by exists s2f.
Qed.

Lemma enrich_same_but_file api mock (sys : @system World) f1 f2 :
  load_cache f1 = load_cache f2 ->
  run_trace (enrich api mock (with_cache_file f1 sys))
  = run_trace (enrich api mock (with_cache_file f2 sys)) /\
  run_exn (enrich api mock (with_cache_file f1 sys))
  = run_exn (enrich api mock (with_cache_file f2 sys)) /\
  run_cache (enrich api mock (with_cache_file f1 sys))
  = run_cache (enrich api mock (with_cache_file f2 sys)) /\
  movies_enriched (run_sys (enrich api mock (with_cache_file f1 sys)))
  = movies_enriched (run_sys (enrich api mock (with_cache_file f2 sys))) /\
  net (run_sys (enrich api mock (with_cache_file f1 sys)))
  = net (run_sys (enrich api mock (with_cache_file f2 sys))) /\
  load_cache (omdb_cache (run_sys (enrich api mock (with_cache_file f1 sys))))
  = load_cache (omdb_cache (run_sys (enrich api mock (with_cache_file f2 sys)))).
Proof.
  intros Hf. unfold enrich_movies, save_cache, with_cache_file. simpl.
  destruct (loop api mock (select_movies (movies sys))
              {| cache := load_cache f1; cache_file := f1;
                 enriched := movies_enriched sys; world := net sys;
                 processed := 0; hits := 0; misses := 0 |})
    as [[tr s1'] res] eqn:Hloop.
  destruct (loop_same_but_file _ _ _ _
              {| cache := load_cache f2; cache_file := f2;
                 enriched := movies_enriched sys; world := net sys;
                 processed := 0; hits := 0; misses := 0 |} _ _ _ Hloop)
    as (s2' & -> & (Hc & He & Hw & _ & _ & _ & Hfile)).
  { unfold same_but_file. simpl. by repeat split. }
  destruct res; simpl; rewrite ?Hc, ?He, ?Hw; [by repeat split|].
  destruct (cache_encodable (cache s2')); by repeat split.
Qed.

(** X14: A cache file that is missing or unreadable is the same to the pipeline
    as one holding the empty mapping: two runs of [main] that differ only in
    a cache file read as the same mapping do the same things record by
    record, end the same way, and leave the same tables, the same world and
    cache files that are read as the same mapping. *)
Theorem unreadable_cache_is_empty_cache a env_key files (sys : @system World) f1 f2 :
  load_cache f1 = load_cache f2 ->
  let out1 := pipeline a env_key files (with_cache_file f1 sys) in
  let out2 := pipeline a env_key files (with_cache_file f2 sys) in
  movies out1.1 = movies out2.1 /\ ratings out1.1 = ratings out2.1 /\
  movies_enriched out1.1 = movies_enriched out2.1 /\ net out1.1 = net out2.1 /\
  load_cache (omdb_cache out1.1) = load_cache (omdb_cache out2.1) /\
  run_trace <$> out1.2 = run_trace <$> out2.2 /\
  run_exn <$> out1.2 = run_exn <$> out2.2.
Proof.
  intros Hf. unfold main.
  destruct files as [[movies_df ratings_df]|]; [|by repeat split].
  cbn [omdb_cache movies ratings movies_enriched net with_cache_file]. rewrite Hf.
  destruct (negb (movies_bind movies_df)); [by repeat split|].
  destruct (negb (ratings_bind ratings_df)); [by repeat split|].
  destruct (mock_omdb a || api_key_set _); [|by repeat split].
  cbn zeta. cbn [fst snd].
  pose proof (enrich_same_but_file
                (if mock_omdb a then None
                 else py_or (omdb_key a) (if use_omdb a then env_key else None))
                (if mock_omdb a then Some (load_cache f2) else None)
                {| movies := import_movies movies_df (movies sys);
                   ratings := upsert_ratings ratings_df (ratings sys);
                   movies_enriched := movies_enriched sys;
                   omdb_cache := f1; net := net sys |} f1 f2 Hf)
    as (Ht & Hx & _ & He & Hn & Hl).
  unfold with_cache_file in *. simpl in *.
  repeat split; try done; try congruence.
  - unfold enrich_movies. by repeat case_match.
  - unfold enrich_movies. by repeat case_match.
Qed.

(** ** A mock run through [main] *)

Lemma loop_mock_values api m rows (s : @state World) tr s' res :
  loop api (Some m) rows s = (tr, s', res) ->
  m ⊆ cache s ->
  (forall k d, cache s !! k = Some d -> m !! k = Some d \/ d = JNull) ->
  forall k d, cache s' !! k = Some d -> m !! k = Some d \/ d = JNull.
Proof.
  revert s tr s' res. induction rows as [|r rows IH]; intros s tr s' res H Hsub Hinv;
    simpl in H.
  { by simplify_eq/=. }
  destruct (step api (Some m) s r) as [[evs s1] res1] eqn:Hstep.
  assert (m ⊆ cache s1 /\
          forall k d, cache s1 !! k = Some d -> m !! k = Some d \/ d = JNull)
    as [Hsub1 Hinv1].
  { pose proof (step_spec _ _ _ _ _ _ _ Hstep) as (Hmono & _).
    split; [by etrans|].
    apply step_events in Hstep. simpl in Hstep.
    destruct (cache s !! key_of r) as [d0|] eqn:Hk.
    { destruct Hstep as (_ & -> & _). done. }
    destruct Hstep as (_ & -> & _). intros k d.
    destruct (decide (key_of r = k)) as [<-|Hne].
    - rewrite lookup_insert_eq. intros ?. simplify_eq. right.
      by rewrite (lookup_weaken_None _ _ _ Hk Hsub).
    - rewrite lookup_insert_ne by done. apply Hinv. }
  destruct res1 as [e|]; [by simplify_eq/=|].
  destruct (loop api (Some m) rows s1) as [[tr1 s2] res2] eqn:Hloop.
  simplify_eq/=. by eapply IH.
Qed.

(** X15: Run through [main], mock mode resolves every record whose key is not
    yet in the cache file to the absence marker: the mock mapping is the
    cache file itself, so it cannot hold the key either.  Such a record
    writes no row, and the null stored under its key is in the cache the
    run ends with. *)
Theorem mock_run_stores_absence a env_key files (sys : @system World) R :
  mock_omdb a = true ->
  (pipeline a env_key files sys).2 = Some R ->
  Forall (fun p =>
            load_cache (omdb_cache sys) !! key_of p.1 = None ->
            run_cache R !! key_of p.1 = Some JNull /\
            Forall (fun e => is_upsert e = false) p.2)
         (run_trace R).
Proof.
  intros Hmock. unfold main. rewrite Hmock.
  destruct files as [[movies_df ratings_df]|]; [|done]. simpl.
  destruct (negb (movies_bind movies_df)); [done|]. simpl.
  destruct (negb (ratings_bind ratings_df)); [done|]. simpl.
  intros HR. injection HR as <-.
  set (sys1 := {| movies := import_movies movies_df (movies sys);
                  ratings := upsert_ratings ratings_df (ratings sys);
                  movies_enriched := movies_enriched sys;
                  omdb_cache := omdb_cache sys; net := net sys |}).
  destruct (enrich_movies_loop None (Some (load_cache (omdb_cache sys))) sys1)
    as (s' & res & Hloop & -> & _).
  pose proof (loop_mock_values _ _ _ _ _ _ _ Hloop) as Hinv. simpl in Hinv.
  apply Forall_forall. intros [r evs] Hin Hk. simpl in *.
  pose proof (trace_data _ _ _ _ _ _ _ _ _ Hloop Hin) as Hd.
  destruct (cache s' !! key_of r) as [d|] eqn:Hc; [|by destruct Hd].
  destruct (Hinv (reflexivity _) (fun k d H => or_introl H) _ _ Hc) as [? | ->];
    [congruence|].
  split; [done|]. simpl in Hd. apply upserts_nil_Forall.
  rewrite Hd. by destruct (save_failed evs).
Qed.

(** ** A second run *)

Lemma loop_quiet api mock rows (s : @state World) tr s' res :
  loop api mock rows s = (tr, s', res) ->
  Forall (fun p => Forall (fun e => is_upsert e = true) p.2) tr ->
  count_misses tr = 0%nat.
Proof.
  intros _. induction 1 as [|[r evs] tr Hevs _ IH]; [done|].
  unfold count_misses in *. simpl in *.
  assert (existsb is_save evs = false) as ->; [|done].
  apply not_true_iff_false. intros Hex.
  apply existsb_exists in Hex as (e & He & Hsave).
  apply list_elem_of_In in He. eapply Forall_forall in Hevs; [|done]. by destruct e.
Qed.

(** X16: After a run in a mode that resolves every miss and whose cache file
    holds the cache it ended with (no save of the cache raised), a second
    run on the same base table and that cache file is served from the
    cache alone, whatever its mode: every record takes the cache-hit path
    (no query, no save, no delay, at most the write of its row), the cache
    mapping is the one the first run ended with, the run ends as the first
    one did and the outside world is not touched. *)
Theorem second_run_is_served_from_cache api1 mock1 api2 mock2 (sys sys' : @system World) :
  resolving api1 mock1 ->
  load_cache (omdb_cache (run_sys (enrich api1 mock1 sys))) = run_cache (enrich api1 mock1 sys) ->
  movies sys' = movies sys ->
  omdb_cache sys' = omdb_cache (run_sys (enrich api1 mock1 sys)) ->
  Forall (fun p => Forall (fun e => is_upsert e = true) p.2)
         (run_trace (enrich api2 mock2 sys')) /\
  count_misses (run_trace (enrich api2 mock2 sys')) = 0%nat /\
  run_cache (enrich api2 mock2 sys') = run_cache (enrich api1 mock1 sys) /\
  run_exn (enrich api2 mock2 sys') = run_exn (enrich api1 mock1 sys) /\
  net (run_sys (enrich api2 mock2 sys')) = net sys'.
Proof.
  intros Hmode Hfile Hm Hf.
  destruct (enrich_synced_saves_ok _ _ _ Hfile)
    as (Hok & s1 & res1 & Hloop1 & Hc1 & _ & Hx1 & Henc1).
  destruct (enrich_movies_loop api2 mock2 sys')
    as (s2 & res2 & Hloop2 & Hc2 & _ & _ & Hn2 & Hend2).
  rewrite Hc2, Hn2, Hc1, Hx1. clear Hc2 Hn2.
  rewrite Hm, Hf, Hfile, Hc1 in Hloop2.
  destruct (loop_rerun _ _ api2 mock2 _ _ _ _ _
              {| cache := cache s1; cache_file := omdb_cache (run_sys (enrich api1 mock1 sys));
                 enriched := movies_enriched sys'; world := net sys';
                 processed := 0; hits := 0; misses := 0 |} Hmode Hloop1 Hok)
    as (tr2 & s2' & Hloop2' & _ & Hc & Hw & Hall); [done|].
  rewrite Hloop2 in Hloop2'. injection Hloop2' as Htr <- ->.
  rewrite Htr. rewrite Htr in Hloop2. simpl in Hc, Hw.
  split; [done|]. split; [by eapply loop_quiet|]. split; [done|]. split; [|done].
  destruct res1 as [e|]; [by destruct Hend2 as (? & _)|].
  rewrite Hc, (Henc1 eq_refl) in Hend2. by destruct Hend2 as (? & _).
Qed.

(** ** The tables and the modes of [main] *)

Lemma enrich_keeps_base api mock (sys : @system World) :
  movies (run_sys (enrich api mock sys)) = movies sys /\
  ratings (run_sys (enrich api mock sys)) = ratings sys.
Proof. unfold enrich_movies. by repeat case_match. Qed.

(** X17: [main] imports both tables before anything else and enrichment never
    changes them: whatever the mode and however the enrichment ends, the
    base tables left are the imported ones.  Without the mock flag and
    without a credential there is no enrichment at all: the enriched table,
    the cache file and the world are left as they were.  When the input
    files cannot be read, nothing is changed; nor is anything when the
    import of the movies raises, the ratings then not being imported. *)
Theorem main_imports_then_enriches a env_key movies_df ratings_df (sys : @system World) :
  movies (pipeline a env_key (Some (movies_df, ratings_df)) sys).1
  = import_movies movies_df (movies sys) /\
  ratings (pipeline a env_key (Some (movies_df, ratings_df)) sys).1
  = (if movies_bind movies_df then upsert_ratings ratings_df (ratings sys)
     else ratings sys) /\
  (mock_omdb a = false ->
   api_key_set (py_or (omdb_key a) (if use_omdb a then env_key else None)) = false ->
   pipeline a env_key (Some (movies_df, ratings_df)) sys
   = (if movies_bind movies_df then
        {| movies := import_movies movies_df (movies sys);
           ratings := upsert_ratings ratings_df (ratings sys);
           movies_enriched := movies_enriched sys;
           omdb_cache := omdb_cache sys; net := net sys |}
      else sys, None)) /\
  (movies_bind movies_df = false ->
   pipeline a env_key (Some (movies_df, ratings_df)) sys = (sys, None)) /\
  pipeline a env_key None sys = (sys, None).
Proof.
  unfold main, upsert_movies.
  split; [|split; [|split; [|split]]]; try done.
  - destruct (movies_bind movies_df); [|done]. simpl.
    destruct (negb _); [done|]. destruct (_ || _); [|done]. simpl. apply enrich_keeps_base.
  - destruct (movies_bind movies_df); [|done]. simpl.
    destruct (negb _); [done|]. destruct (_ || _); [|done]. simpl. apply enrich_keeps_base.
  - intros -> ->. destruct (movies_bind movies_df); [|done]. simpl. by destruct (negb _).
  - by intros ->.
Qed.

End Properties.

(** * The year of a title *)

Section Year.

Variable unicode_isspace : Z -> bool.
Variable unicode_decimal : Z -> option Z.

Local Abbreviation year_of := (extract_year unicode_isspace unicode_decimal).
Local Abbreviation strip := (py_strip unicode_isspace).
Local Abbreviation isspace := (cp_isspace unicode_isspace).
Local Abbreviation import_movies := (upsert_movies unicode_isspace unicode_decimal).
Local Abbreviation last_row := (last_movie unicode_isspace unicode_decimal).
Local Abbreviation row_of := (movie_of unicode_isspace unicode_decimal).

Lemma utf8_lead_ascii n : (n < 128)%Z -> utf8_lead n = None.
Proof. intros Hn. unfold utf8_lead. destruct (Z.ltb_spec n 192); [done|lia]. Qed.

(** ASCII text at the end of a string is read byte by byte, whatever
    comes before it. *)
Lemma utf8_decode_ascii pend (p a : list ascii) :
  Forall (fun b => (byte_val b < 128)%Z) a ->
  utf8_decode pend (p ++ a)%list = (utf8_decode pend p ++ (byte_val <$> a))%list.
Proof.
  intros Ha. revert pend. induction p as [|b p IH]; intros pend.
  - simpl. revert pend. induction Ha as [|b a Hb Ha IH]; intros pend.
    { simpl. by rewrite app_nil_r. }
    cbn [utf8_decode fmap list_fmap]. rewrite (utf8_lead_ascii _ Hb), (IH None). simpl.
    destruct pend as [[v k]|]; [|done].
    destruct (Z.leb_spec 128 (byte_val b)); [lia|]. done.
  - cbn [utf8_decode app].
    destruct pend as [[v k]|].
    + destruct (_ && _).
      * destruct k; by rewrite IH.
      * destruct (utf8_lead _); by rewrite IH.
    + destruct (utf8_lead _); by rewrite IH.
Qed.

Lemma string_app_bytes (a b : string) :
  list_ascii_of_string (a +:+ b)
  = (list_ascii_of_string a ++ list_ascii_of_string b)%list.
Proof. induction a as [|c a IH]; simpl; [done|]. by rewrite IH. Qed.

Lemma digit_val_byte c d :
  digit_val c = Some d -> byte_val c = (48 + d)%Z /\ (0 <= d <= 9)%Z.
Proof.
  unfold digit_val, byte_val. cbv zeta. generalize (nat_of_ascii c). intros n.
  destruct (Nat.leb_spec 48 n), (Nat.leb_spec n 57); simpl; try done.
  intros ?. simplify_eq. lia.
Qed.

Lemma py_isspace_byte c :
  py_isspace c = true -> (byte_val c < 128)%Z /\ isspace (byte_val c) = true.
Proof.
  unfold py_isspace, cp_isspace, byte_val. cbv zeta. generalize (nat_of_ascii c). intros n.
  intros H.
  assert ((9 <= n <= 13)%nat \/ (28 <= n <= 32)%nat) as Hn.
  { apply orb_true_iff in H as [H|H]; apply andb_true_iff in H as [H1 H2];
      apply Nat.leb_le in H1, H2; lia. }
  split; [lia|].
  destruct (Z.ltb_spec (Z.of_nat n) 128); [|lia].
  apply orb_true_iff. destruct Hn; [left|right]; apply andb_true_iff; split;
    apply Z.leb_le; lia.
Qed.

Lemma digit_not_space d : (0 <= d <= 9)%Z -> isspace (48 + d) = false.
Proof.
  intros Hd. unfold cp_isspace. destruct (Z.ltb_spec (48 + d) 128); [|lia].
  apply orb_false_iff. split; apply andb_false_iff.
  - right. apply Z.leb_gt. lia.
  - right. apply Z.leb_gt. lia.
Qed.

Lemma lstrip_keeps_tail sp p c t :
  sp c = false -> exists q, lstrip_with sp (p ++ c :: t)%list = (q ++ c :: t)%list.
Proof.
  intros Hc. induction p as [|a p IH]; simpl.
  { rewrite Hc. by exists []. }
  destruct (sp a); [done|]. by exists (a :: p).
Qed.

Lemma lstrip_spaces sp ws c t :
  Forall (fun a => sp a = true) ws -> sp c = false ->
  lstrip_with sp (ws ++ c :: t)%list = c :: t.
Proof.
  intros Hws Hc. induction Hws as [|a ws Ha _ IH]; simpl; [by rewrite Hc|].
  by rewrite Ha.
Qed.

Lemma lstrip_length sp l : (length (lstrip_with sp l) <= length l)%nat.
Proof. induction l as [|a l IH]; simpl; [done|]. destruct (sp a); simpl; lia. Qed.

Lemma strip_length sp l : (length (strip_with sp l) <= length l)%nat.
Proof.
  unfold strip_with. rewrite length_rev.
  etrans; [apply lstrip_length|]. rewrite length_rev. apply lstrip_length.
Qed.

(** Stripping keeps a core that starts and ends with a character that is
    not white space, and drops the white space after it. *)
Lemma strip_core sp p c mid e ws :
  sp c = false -> sp e = false ->
  Forall (fun a => sp a = true) ws ->
  exists q, strip_with sp (p ++ (c :: mid ++ [e]) ++ ws)%list = (q ++ c :: mid ++ [e])%list.
Proof.
  intros Hc He Hws. unfold strip_with.
  destruct (lstrip_keeps_tail sp p c ((mid ++ [e]) ++ ws)%list Hc) as [q Hq].
  exists q. simpl. simpl in Hq. rewrite Hq.
  replace (q ++ c :: (mid ++ [e]) ++ ws)%list
    with (((q ++ c :: mid) ++ [e]) ++ ws)%list
    by (by rewrite <- !app_assoc).
  rewrite !rev_app_distr. simpl.
  rewrite lstrip_spaces; [|by apply Forall_rev|done].
  simpl. rewrite !rev_app_distr, !rev_involutive. simpl.
  by rewrite <- !app_assoc.
Qed.

Lemma int_digits_digit d l acc prev :
  (0 <= d <= 9)%Z -> int_digits ((48 + d) :: l) acc prev = int_digits l (10 * acc + d) true.
Proof.
  intros Hd. simpl.
  destruct (Z.eqb_spec (48 + d) 95); [lia|].
  destruct (Z.leb_spec 48 (48 + d)); [|lia].
  destruct (Z.leb_spec (48 + d) 57); [|lia].
  simpl. do 2 f_equal. lia.
Qed.

Lemma int_digits_bounds l acc prev v :
  int_digits l acc prev = Some v -> (0 <= acc)%Z ->
  (acc <= v <= (acc + 1) * 10 ^ Z.of_nat (length l) - 1)%Z.
Proof.
  revert acc prev. induction l as [|c l IH]; intros acc prev H Hacc; simpl in H.
  { destruct prev; simplify_eq. simpl. lia. }
  rewrite length_cons, Nat2Z.inj_succ, Z.pow_succ_r by lia.
  assert (0 < 10 ^ Z.of_nat (length l))%Z by (apply Z.pow_pos_nonneg; lia).
  destruct (Z.eqb c 95).
  - destruct prev; [|done]. apply IH in H; [|done]. nia.
  - destruct (Z.leb_spec 48 c); [|done]. destruct (Z.leb_spec c 57); [|done].
    simpl in H. apply IH in H; [|lia]. nia.
Qed.

Lemma py_int_bounds t v :
  py_int unicode_isspace unicode_decimal t = Some v -> (length t <= 4)%nat ->
  (-999 <= v <= 9999)%Z.
Proof.
  unfold py_int. intros H Hlen.
  pose proof (strip_length c_isspace (int_text unicode_isspace unicode_decimal <$> t)) as Hs.
  rewrite length_fmap in Hs.
  destruct (strip_with c_isspace _) as [|c l]; [done|].
  simpl in Hs.
  assert (forall l' n v', int_digits l' 0 false = Some v' -> (length l' <= n)%nat ->
            (0 <= v' <= 10 ^ Z.of_nat n - 1)%Z) as Hgen.
  { intros l' n v' Hi Hl. apply int_digits_bounds in Hi; [|done].
    assert (10 ^ Z.of_nat (length l') <= 10 ^ Z.of_nat n)%Z
      by (apply Z.pow_le_mono_r; lia).
    lia. }
  destruct (Z.eqb c 45).
  { apply fmap_Some in H as (v' & Hi & ->).
    apply (Hgen _ 3%nat) in Hi; [|lia]. simpl in Hi. lia. }
  destruct (Z.eqb c 43).
  { apply (Hgen _ 3%nat) in H; [|lia]. simpl in H. lia. }
  apply (Hgen _ 4%nat) in H; [|simpl; lia]. simpl in H. lia.
Qed.

(** X5: A title that ends, white space apart, with four digits and a closing
    parenthesis gets the number they spell as its year, whatever comes
    before them: the opening parenthesis is not looked at. *)
Theorem extract_year_four_digits (prefix ws : string) c1 c2 c3 c4 d1 d2 d3 d4 :
  digit_val c1 = Some d1 -> digit_val c2 = Some d2 ->
  digit_val c3 = Some d3 -> digit_val c4 = Some d4 ->
  Forall (fun a => py_isspace a = true) (list_ascii_of_string ws) ->
  year_of (prefix +:+ String c1 (String c2 (String c3 (String c4 (String ")" ws)))))
  = Some (1000 * d1 + 100 * d2 + 10 * d3 + d4)%Z.
Proof.
  intros H1 H2 H3 H4 Hws.
  apply digit_val_byte in H1 as [B1 R1], H2 as [B2 R2], H3 as [B3 R3], H4 as [B4 R4].
  assert (Forall (fun b => (byte_val b < 128)%Z) (list_ascii_of_string ws) /\
          Forall (fun c => isspace c = true) (byte_val <$> list_ascii_of_string ws))
    as [Hascii Hsp].
  { split.
    - eapply Forall_impl; [done|]. intros a Ha. by apply py_isspace_byte in Ha as [? _].
    - apply Forall_fmap. eapply Forall_impl; [done|]. intros a Ha.
      by apply py_isspace_byte in Ha as [_ ?]. }
  assert (code_points (prefix +:+ String c1 (String c2 (String c3 (String c4 (String ")" ws)))))
          = (code_points prefix
             ++ ((48 + d1) :: [48 + d2; 48 + d3; 48 + d4] ++ [41])
             ++ (byte_val <$> list_ascii_of_string ws))%list)%Z as Hcp.
  { unfold code_points. rewrite string_app_bytes. simpl list_ascii_of_string.
    rewrite (utf8_decode_ascii None _ (c1 :: c2 :: c3 :: c4 :: ")"%char :: _)).
    - simpl. by rewrite B1, B2, B3, B4.
    - repeat (apply Forall_cons; split); try lia; try done. }
  destruct (strip_core isspace (code_points prefix) (48 + d1)%Z [48 + d2; 48 + d3; 48 + d4]%Z 41%Z
              (byte_val <$> list_ascii_of_string ws)
              (digit_not_space _ R1)) as [q Hq]; [done|done|].
  unfold extract_year, py_strip. rewrite Hcp, Hq.
  unfold ends_with_paren, slice_m5_m1.
  rewrite rev_app_distr. simpl.
  rewrite length_app. simpl.
  replace (length q + 5 - 1 - (length q + 5 - 5))%nat with 4%nat by lia.
  replace (length q + 5 - 5)%nat with (length q + 0)%nat by lia.
  rewrite drop_app_add. simpl.
  unfold py_int. cbn [fmap list_fmap].
  assert (forall d, (0 <= d <= 9)%Z ->
            int_text unicode_isspace unicode_decimal (48 + d) = (48 + d)%Z /\
            c_isspace (48 + d) = false /\
            Z.eqb (48 + d) 45 = false /\ Z.eqb (48 + d) 43 = false) as Hd.
  { intros d Hd. unfold int_text, c_isspace.
    destruct (Z.ltb_spec (48 + d) 127); [|lia].
    destruct (Z.leb_spec 9 (48 + d)), (Z.leb_spec (48 + d) 13), (Z.eqb_spec (48 + d) 32),
      (Z.eqb_spec (48 + d) 45), (Z.eqb_spec (48 + d) 43); simpl; try done; lia. }
  destruct (Hd _ R1) as (-> & S1 & M1 & P1), (Hd _ R2) as (-> & _), (Hd _ R3) as (-> & _),
    (Hd _ R4) as (-> & S4 & _).
  assert (strip_with c_isspace [48 + d1; 48 + d2; 48 + d3; 48 + d4]%Z
          = [48 + d1; 48 + d2; 48 + d3; 48 + d4]%Z) as ->.
  { unfold strip_with. cbn [lstrip_with]. rewrite S1.
    cbn [rev app lstrip_with]. by rewrite S4. }
  rewrite M1, P1. rewrite !int_digits_digit by done. simpl. f_equal. lia.
Qed.

(** X6: A year is extracted only from a title that ends, white space apart,
    with a closing parenthesis, and it is read from at most four
    characters: it lies between -999 and 9999. *)
Theorem extract_year_bounds title y :
  year_of title = Some y ->
  ends_with_paren (strip title) = true /\ (-999 <= y <= 9999)%Z.
Proof.
  unfold extract_year. destruct (ends_with_paren (strip title)); [|done].
  intros H. split; [done|]. eapply py_int_bounds; [done|].
  unfold slice_m5_m1. rewrite length_take. lia.
Qed.

(** * The import of the two tables *)

Lemma movies_fold_lookup (df : list (Z * string * option string))
    (m : gmap Z movie_row) (i : Z) :
  foldl (fun (m : gmap Z movie_row) (r : Z * string * option string) =>
           <[r.1.1 := row_of r]> m) m df !! i
  = match last_row df i with Some row => Some row | None => m !! i end.
Proof.
  revert m. induction df as [|r df IH]; intros m; simpl; [done|].
  rewrite IH. destruct (last_movie _ _ df i); [done|].
  destruct (decide (r.1.1 = i)) as [->|Hne].
  - by rewrite lookup_insert_eq.
  - by rewrite lookup_insert_ne.
Qed.

Lemma upsert_movies_lookup_gen (df : list (Z * string * option string))
    (m : gmap Z movie_row) (i : Z) :
  import_movies df m !! i
  = if movies_bind df
    then match last_row df i with Some row => Some row | None => m !! i end
    else m !! i.
Proof.
  unfold upsert_movies. destruct (movies_bind df); [|done]. apply movies_fold_lookup.
Qed.

Lemma last_movie_Some (df : list (Z * string * option string)) (i : Z) row :
  last_row df i = Some row -> exists r, r ∈ df /\ r.1.1 = i /\ row = row_of r.
Proof.
  induction df as [|r df IH]; simpl; [done|].
  destruct (last_movie _ _ df i) as [row'|].
  - intros ?. destruct IH as (r' & ? & ? & ?); [done|].
    exists r'. split; [by right|done].
  - destruct (decide (r.1.1 = i)); [|done]. intros ?. simplify_eq.
    exists r. split; [by left|done].
Qed.

(** X3: [upsert_movies] replaces or inserts by id: after the import, an id holds
    the row built from the last input row with that id, and an id that is
    not in the input keeps the row it had.  When an id of the input does
    not fit 64 bits the import raises and the table stays as it was. *)
Theorem upsert_movies_last_wins (df : list (Z * string * option string))
    (m : gmap Z movie_row) (i : Z) :
  import_movies df m !! i
  = (if movies_bind df
     then match last_row df i with Some row => Some row | None => m !! i end
     else m !! i) /\
  ((forall r, r ∈ df -> r.1.1 <> i) -> import_movies df m !! i = m !! i) /\
  (movies_bind df = true <-> forall r, r ∈ df -> (- 2 ^ 63 <= r.1.1 < 2 ^ 63)%Z).
Proof.
  split; [apply upsert_movies_lookup_gen|]. split; last first.
  { unfold movies_bind. rewrite forallb_forall.
    split; intros H r Hr.
    - apply list_elem_of_In, H in Hr. unfold sqlite_int in Hr. lia.
    - apply list_elem_of_In, H in Hr. unfold sqlite_int. lia. }
  intros Hnot. rewrite upsert_movies_lookup_gen.
  destruct (movies_bind df); [|done].
  destruct (last_movie _ _ df i) as [row|] eqn:Hl; [|done].
  apply last_movie_Some in Hl as (r & Hin & Hid & _). by destruct (Hnot r Hin).
Qed.

(** X4: A row of [movies] that the import changed comes from an input row with
    that id, and its year is the one extracted from its own title. *)
Theorem upsert_movies_year_of_title (df : list (Z * string * option string))
    (m : gmap Z movie_row) (i : Z) row :
  import_movies df m !! i = Some row ->
  m !! i = Some row \/
  (m_year row = year_of (m_title row) /\ (i, m_title row, m_genres row) ∈ df).
Proof.
  rewrite upsert_movies_lookup_gen.
  destruct (movies_bind df); [|by left].
  destruct (last_movie _ _ df i) as [row'|] eqn:Hl; [|by left].
  intros ?. simplify_eq. right.
  apply last_movie_Some in Hl as ([[j t] g] & Hin & <- & ->). by split.
Qed.

End Year.

Lemma ratings_fold_lookup (floats : bool) (rows : list (Z * Z * float * Z))
    (t : gmap (Z * Z * Z) float) (k : Z * Z * Z) :
  foldl (fun (t : gmap (Z * Z * Z) float) (p : Z * Z * float * Z) =>
           let k := (p.1.1.1, p.1.1.2, p.2) in
           match t !! k with
           | Some _ => t
           | None => <[k := p.1.2]> t
           end)
        t (rating_params floats <$> rows) !! k
  = match t !! k with Some v => Some v | None => first_rating floats rows k end.
Proof.
  revert t. induction rows as [|r rows IH]; intros t; simpl.
  { by destruct (t !! k). }
  rewrite IH. unfold rating_key, rating_params. simpl.
  set (kr := (_, _, _)).
  destruct (t !! kr) as [v|] eqn:Hr.
  - destruct (t !! k) eqn:Hk; [done|].
    destruct (decide (kr = k)); [congruence|done].
  - destruct (decide (kr = k)) as [<-|Hne].
    + by rewrite lookup_insert_eq, Hr.
    + by rewrite lookup_insert_ne.
Qed.

Lemma upsert_ratings_lookup_gen (df : ratings_frame)
    (t : gmap (Z * Z * Z) float) (k : Z * Z * Z) :
  upsert_ratings df t !! k
  = match t !! k with
    | Some v => Some v
    | None =>
        if ratings_bind df then first_rating (float_ratings df) (rating_rows df) k
        else None
    end.
Proof.
  unfold upsert_ratings. destruct (ratings_bind df).
  - apply ratings_fold_lookup.
  - by destruct (t !! k).
Qed.

Lemma float64_int_small z : (Z.abs z <= 2 ^ 53)%Z -> float64_int z = z.
Proof.
  intros Hz. unfold float64_int.
  destruct (decide (Z.abs z = 0)) as [H0|H0].
  { rewrite H0. done. }
  assert (Z.log2 (Z.abs z) <= 53)%Z as Hlog.
  { rewrite <- (Z.log2_pow2 53) by lia. apply Z.log2_le_mono. lia. }
  destruct (Z.leb_spec (Z.log2 (Z.abs z) - 52) 0) as [|Hgt]; [done|].
  assert (Z.log2 (Z.abs z) = 53) as Hl by lia. rewrite Hl.
  assert (Z.abs z = 2 ^ 53)%Z as Ha.
  { pose proof (Z.log2_spec (Z.abs z)) as Hs. rewrite Hl in Hs. lia. }
  rewrite Ha. change (Z.sgn z * 2 ^ 53 = z)%Z. lia.
Qed.

(** X1: [upsert_ratings] never changes a stored rating.  A key already in the
    table keeps its value, and a new key gets the rating of the first input
    row that carries it; later duplicates are ignored.  The key of an
    input row is made of its three integers as the code reads them: the
    integers themselves when the rating column holds integers or when none
    of them is beyond 2^53, and otherwise each rounded to the nearest
    float64.  When an integer read this way does not fit 64 bits, the
    import raises and the table stays as it was. *)
Theorem upsert_ratings_first_wins (df : ratings_frame)
    (t : gmap (Z * Z * Z) float) (k : Z * Z * Z) :
  upsert_ratings df t !! k
  = match t !! k with
    | Some v => Some v
    | None =>
        if ratings_bind df then first_rating (float_ratings df) (rating_rows df) k
        else None
    end /\
  t ⊆ upsert_ratings df t /\
  (forall r, rating_key false r = (r.1.1.1, r.1.1.2, r.2) /\
             rating_key true r = (float64_int r.1.1.1, float64_int r.1.1.2, float64_int r.2)) /\
  (forall z, (Z.abs z <= 2 ^ 53)%Z -> float64_int z = z).
Proof.
  split; [apply upsert_ratings_lookup_gen|]. split; [|split].
  - apply map_subseteq_spec. intros k' v Hk'.
    by rewrite upsert_ratings_lookup_gen, Hk'.
  - done.
  - apply float64_int_small.
Qed.

(** X2: Importing the same ratings again changes nothing. *)
Theorem upsert_ratings_reimport (df : ratings_frame)
    (t : gmap (Z * Z * Z) float) :
  upsert_ratings df (upsert_ratings df t) = upsert_ratings df t.
Proof.
  apply map_eq. intros k. rewrite !upsert_ratings_lookup_gen.
  destruct (t !! k); [done|]. destruct (ratings_bind df); [|done].
  by destruct (first_rating _ _ k).
Qed.

(** * The sample world: instances and counterexamples *)

Example extract_year_toy_story : sample_year "Toy Story (1995)" = Some 1995.
Proof. vm_compute. reflexivity. Qed.

Example extract_year_absent : sample_year "Foo Bar" = None.
Proof. vm_compute. reflexivity. Qed.

(** A separator that [strip()] removes and [int()] does not skip; a
    no-break space after the parenthesis; a fullwidth digit. *)
Example extract_year_separator : sample_year ("a" +:+ sep28 +:+ "12 )") = None.
Proof. vm_compute. reflexivity. Qed.

Example extract_year_no_break_space : sample_year ("Heat (1995)" +:+ nbsp) = Some 1995.
Proof. vm_compute. reflexivity. Qed.

Example extract_year_fullwidth : sample_year ("Heat (" +:+ fullwidth_one +:+ "995)") = Some 1995.
Proof. vm_compute. reflexivity. Qed.

Example cache_key_sample :
  cache_key "Title" (Some 1995) = "Title|1995" /\ cache_key "Title" None = "Title|None".
Proof. split; reflexivity. Qed.

(** Two timestamps above 2^53 that the import reads as one key: the
    second row is ignored. *)
Example ratings_key_collapse :
  upsert_ratings (RatingsFrame true [(1, 1, 3%float, 2 ^ 53); (1, 1, 4%float, 2 ^ 53 + 1)]) ∅
  = {[(1, 1, 2 ^ 53) := 3%float]}.
Proof. vm_compute. reflexivity. Qed.

(** With a rating column of integers the rows are read as they are. *)
Example ratings_key_exact :
  upsert_ratings (RatingsFrame false [(1, 1, 3%float, 2 ^ 53); (1, 1, 4%float, 2 ^ 53 + 1)]) ∅
  = {[(1, 1, 2 ^ 53) := 3%float; (1, 1, 2 ^ 53 + 1) := 4%float]}.
Proof. vm_compute. reflexivity. Qed.

(** A timestamp that rounds to 2^63 cannot be bound: nothing is stored. *)
Example ratings_overflow :
  upsert_ratings (RatingsFrame true [(1, 1, 3%float, 5); (1, 1, 4%float, 2 ^ 63 - 1)]) ∅ = ∅.
Proof. vm_compute. reflexivity. Qed.

(** An id beyond 64 bits cannot be bound: no row of the file is stored. *)
Example movies_overflow :
  upsert_movies sample_isspace sample_decimal
    [(1, "Heat (1995)", Some "Action"); (2 ^ 63, "Ran (1985)", None)] ∅ = ∅.
Proof. vm_compute. reflexivity. Qed.

(** The mock payload of the specification: director and numeric rating. *)
Example mock_payload_enriched :
  movies_enriched
    (run_sys (run_with_payload
                (JObj [("Director", JStr "X"); ("imdbRating", JStr "8.1");
                       ("Response", JStr "True")]))) !! 1
  = Some {| e_title := "Title"; e_year := Some 1995; e_genres := None;
            e_director := SqlText "X"; e_plot := SqlNull; e_box_office := SqlNull;
            e_imdb_rating := Some 8.1%float; e_imdb_id := SqlNull;
            e_other_fields := [("Response", JStr "True")] |}.
Proof. vm_compute. reflexivity. Qed.

Example mock_payload_not_found :
  movies_enriched (run_sys (run_with_payload (JObj [("Response", JStr "False")]))) !! 1
  = None.
Proof. vm_compute. reflexivity. Qed.

(** A payload that cannot be encoded is stored in the cache dict, the save
    of the cache raises and empties the file, and no row is written. *)
Example surrogate_payload_loses_the_cache :
  run_exn (run_with_payload (JObj [("Title", JStr lone_surrogate)]))
  = Some UnicodeEncodeError /\
  omdb_cache (run_sys (run_with_payload (JObj [("Title", JStr lone_surrogate)])))
  = FileCorrupt /\
  is_Some (run_cache (run_with_payload (JObj [("Title", JStr lone_surrogate)]))
             !! "Title|1995") /\
  movies_enriched (run_sys (run_with_payload (JObj [("Title", JStr lone_surrogate)]))) !! 1
  = None.
Proof. vm_compute. repeat split; try reflexivity. eexists. reflexivity. Qed.

(** A cached plot that cannot be encoded: the [INSERT] raises. *)
Example surrogate_plot_aborts :
  run_exn (sample_enrich None None
             {| movies := {[1 := MovieRow "Title" (Some 1995) None]}; ratings := ∅;
                movies_enriched := ∅;
                omdb_cache := FileJson {["Title|1995" := surrogate_plot_payload]};
                net := O |})
  = Some UnicodeEncodeError.
Proof. vm_compute. reflexivity. Qed.

(** C1 as stated fails: the payload fetched for the second record cannot
    be encoded, so the save of the cache raises and leaves the file empty;
    the second run starts from an empty cache, asks the service again for
    the first record, gets another answer and replaces the row. *)
Lemma lost_cache_breaks_idempotence :
  run_exn (the_run (flaky_main live_args None flaky_files empty_system).2)
  = Some UnicodeEncodeError /\
  omdb_cache (flaky_main live_args None flaky_files empty_system).1 = FileCorrupt /\
  e_director <$>
    movies_enriched (flaky_main live_args None flaky_files empty_system).1 !! 1
  = Some (SqlText "A") /\
  e_director <$>
    movies_enriched
      (flaky_main live_args None flaky_files
         (flaky_main live_args None flaky_files empty_system).1).1 !! 1
  = Some (SqlText "B") /\
  movies_enriched
    (flaky_main live_args None flaky_files
       (flaky_main live_args None flaky_files empty_system).1).1
  <> movies_enriched (flaky_main live_args None flaky_files empty_system).1.
Proof.
  split; [vm_compute; reflexivity|]. split; [vm_compute; reflexivity|].
  split; [vm_compute; reflexivity|]. split; [vm_compute; reflexivity|].
  intros H. apply (f_equal (fun m => e_director <$> m !! 1)) in H.
  vm_compute in H. discriminate H.
Qed.

(** C1 (amended) on the sample input: a live run that meets a failing
    lookup and a shared key, then the same run again. *)
Lemma pipeline_idempotent_witness :
  movies_enriched
    (sample_main live_args None sample_files
       (sample_main live_args None sample_files sample_system).1).1
  = movies_enriched (sample_main live_args None sample_files sample_system).1.
Proof.
  apply (pipeline_idempotent sample_get decimal_float_of_str decimal_float_of_int
           sample_isspace sample_decimal live_args None sample_files sample_system).
  vm_compute. reflexivity.
Defined.

(** C2 on the sample input: the first record of a live run whose cache
    file already holds its key. *)
Lemma cache_hit_no_lookup_no_delay_witness :
  is_Some (load_cache (omdb_cache hit_system)
             !! key_of (nth_record (sample_enrich (Some "k") None hit_system) 0).1) /\
  Forall (fun e => is_query e = false /\ is_sleep e = false)
         (nth_record (sample_enrich (Some "k") None hit_system) 0).2.
Proof.
  split.
  - vm_compute. eexists. reflexivity.
  - apply (cache_hit_no_lookup_no_delay sample_get decimal_float_of_str
             decimal_float_of_int (Some "k") None hit_system
             (nth_record (sample_enrich (Some "k") None hit_system) 0).1).
    + apply (list_elem_of_lookup_2 _ 0%nat). vm_compute. reflexivity.
    + vm_compute. eexists. reflexivity.
Defined.

(** C7 on the sample input: no credential, an empty cache. *)
Lemma no_credential_skips_record_witness :
  enrich_record sample_get decimal_float_of_str decimal_float_of_int None None
    sample_state (2, MovieRow "Down (1999)" (Some 1999) None)
  = ([EvLog "No API key provided and no mock entry for Down (1999)|1999 -> skipping"],
     sample_state, None).
Proof.
  exact (proj1 (no_credential_skips_record sample_get decimal_float_of_str
                  decimal_float_of_int None sample_state
                  (2, MovieRow "Down (1999)" (Some 1999) None) []
                  eq_refl eq_refl)).
Defined.

(** C10 on the sample input: a row left by an earlier run survives a run in
    which its record is skipped for want of a credential. *)
Lemma enrichment_never_deletes_witness :
  Forall (fun e => is_upsert e = false)
         (nth_record (sample_enrich None None stale_system) 1).2 /\
  movies_enriched (run_sys (sample_enrich None None stale_system))
    !! (nth_record (sample_enrich None None stale_system) 1).1.1
  = movies_enriched stale_system
    !! (nth_record (sample_enrich None None stale_system) 1).1.1.
Proof.
  destruct (enrichment_never_deletes sample_get decimal_float_of_str
              decimal_float_of_int None None stale_system) as (_ & H & _).
  apply (H (nth_record (sample_enrich None None stale_system) 1).1).
  - apply (list_elem_of_lookup_2 _ 1%nat). vm_compute. reflexivity.
  - vm_compute. exact I.
Defined.

(** C3 as stated fails: in mock mode, the record misses the cache, is
    resolved from the mock mapping without any request to the service (the
    world still counts none), and the delay is executed. *)
Lemma mock_miss_incurs_delay :
  (nth_record (run_with_payload heat_payload) 0).1
  = (1, MovieRow "Title" (Some 1995) None) /\
  load_cache (omdb_cache title_system) !! "Title|1995" = None /\
  Exists (fun e => e = EvSleep 0.1%float) (nth_record (run_with_payload heat_payload) 0).2 /\
  Forall (fun e => is_query e = false) (nth_record (run_with_payload heat_payload) 0).2 /\
  net (run_sys (run_with_payload heat_payload)) = O.
Proof.
  vm_compute. repeat split; try reflexivity.
  - apply Exists_cons_tl, Exists_cons_hd. reflexivity.
  - repeat constructor.
Qed.

(** C3 (amended) on the sample input: one mock-mode miss. *)
Lemma delay_after_every_resolved_miss_witness :
  exists rest,
    (enrich_record sample_get decimal_float_of_str decimal_float_of_int None
       (Some {["Title|1995" := heat_payload]}) sample_state
       (1, MovieRow "Title" (Some 1995) None)).1.1
    = EvSaveCache (<["Title|1995" := heat_payload]> ∅) :: EvSleep 0.1%float :: rest /\
    Forall (fun e => is_query e = false)
      (enrich_record sample_get decimal_float_of_str decimal_float_of_int None
         (Some {["Title|1995" := heat_payload]}) sample_state
         (1, MovieRow "Title" (Some 1995) None)).1.1.
Proof.
  exact (proj2 (delay_after_every_resolved_miss sample_get decimal_float_of_str
                  decimal_float_of_int None None title_system)
           {["Title|1995" := heat_payload]} sample_state
           (1, MovieRow "Title" (Some 1995) None) eq_refl).
Defined.



(** C5 on the sample input: records 1 and 3 share title and year; the live
    run queries for record 1 and every later record with that title and
    year takes the cache-hit path. *)
Lemma one_lookup_per_title_year_witness :
  Forall (fun p =>
            m_title p.1.2 = "Heat (1995)" -> m_year p.1.2 = Some 1995 ->
            (Exists (fun e => is_query e = true)
               (nth_record (sample_enrich (Some "k") None sample_system) 0).2 ->
             Forall (fun e => is_query e = false) p.2) /\
            ((nth_record (sample_enrich (Some "k") None sample_system) 0).2
             <> [EvLog ("No API key provided and no mock entry for "
                        +:+ "Heat (1995)|1995" +:+ " -> skipping")] ->
             Forall (fun e => is_upsert e = true) p.2))
         (drop 1 (run_trace (sample_enrich (Some "k") None sample_system))).
Proof.
  apply (proj2 (proj2 (one_lookup_per_title_year sample_get decimal_float_of_str
                         decimal_float_of_int))
           (Some "k") None sample_system []
           (1, MovieRow "Heat (1995)" (Some 1995) (Some "Action|Crime"))).
  vm_compute. reflexivity.
Defined.

(** C6 as stated fails: the rating text "abc" does not parse, and the row
    is written all the same, with the rating absent. *)
Lemma unparsable_rating_still_written :
  decimal_float_of_str "abc" = None /\
  run_cache (run_with_payload unparsable_payload) !! "Title|1995"
  = Some unparsable_payload /\
  movies_enriched (run_sys (run_with_payload unparsable_payload)) !! 1
  = Some {| e_title := "Title"; e_year := Some 1995; e_genres := None;
            e_director := SqlText "X"; e_plot := SqlNull; e_box_office := SqlNull;
            e_imdb_rating := None; e_imdb_id := SqlNull;
            e_other_fields := [("Response", JStr "True")] |}.
Proof. vm_compute. repeat split; reflexivity. Qed.

(** C6 (amended) on a payload whose bound fields are a string, an integer,
    a boolean and a float. *)
Lemma unparsable_rating_row_written_witness :
  exists row,
    EvUpsert 1 row ∈ (nth_record (run_with_payload mixed_payload) 0).2 /\
    e_imdb_rating row = None /\
    movies_enriched (run_sys (run_with_payload mixed_payload)) !! 1 = Some row.
Proof.
  apply (unparsable_rating_row_written sample_get decimal_float_of_str decimal_float_of_int
           None (Some {["Title|1995" := mixed_payload]}) title_system
           (1, MovieRow "Title" (Some 1995) None)
           (nth_record (run_with_payload mixed_payload) 0).2
           [("Director", JStr "X"); ("Plot", JInt 7); ("BoxOffice", JBool true);
            ("imdbID", JFloat 1.5%float); ("imdbRating", JStr "abc");
            ("Awards", JArr [JStr "one"]); ("Response", JStr "True")]
           "abc").
  - apply (list_elem_of_lookup_2 _ 0%nat). vm_compute. reflexivity.
  - vm_compute. reflexivity.
  - reflexivity.
  - reflexivity.
  - reflexivity.
  - vm_compute. repeat constructor.
  - repeat (apply Forall_cons; split); try apply Forall_nil; simpl; done.
  - reflexivity.
Defined.

(** The proviso of C6 is needed: with a field outside the extracted ones
    that cannot be encoded, the [INSERT] raises and no row is written. *)
Example unparsable_rating_unencodable_field :
  run_exn (sample_enrich None None
             {| movies := {[1 := MovieRow "Title" (Some 1995) None]}; ratings := ∅;
                movies_enriched := ∅;
                omdb_cache := FileJson {["Title|1995" := surrogate_awards_payload]};
                net := O |})
  = Some UnicodeEncodeError /\
  movies_enriched
    (run_sys (sample_enrich None None
                {| movies := {[1 := MovieRow "Title" (Some 1995) None]}; ratings := ∅;
                   movies_enriched := ∅;
                   omdb_cache := FileJson {["Title|1995" := surrogate_awards_payload]};
                   net := O |})) !! 1
  = None.
Proof. vm_compute. split; reflexivity. Qed.

(** C8 as stated fails: "Title" and "Genre" are payload fields other than
    the five extracted ones, and they are not in the other-fields value. *)
Lemma title_and_genre_left_out :
  run_cache (run_with_payload titled_payload) !! "Title|1995" = Some titled_payload /\
  e_other_fields <$> (movies_enriched (run_sys (run_with_payload titled_payload)) !! 1)
  = Some [("Rated", JStr "PG")].
Proof. vm_compute. split; reflexivity. Qed.

(** C8 (amended) on the sample live run. *)
Lemma other_fields_exclude_eight_witness :
  Forall (fun p =>
            Forall (fun e =>
                      match e with
                      | EvUpsert i row =>
                          exists o,
                            run_cache (sample_enrich (Some "k") None sample_system)
                              !! key_of p.1 = Some (JObj o) /\
                            i = p.1.1 /\
                            e_other_fields row = other_of o /\
                            forall k v, (k, v) ∈ e_other_fields row
                                        <-> (k, v) ∈ o /\ k ∉ other_excluded
                      | _ => True
                      end) p.2)
         (run_trace (sample_enrich (Some "k") None sample_system)).
Proof.
  exact (other_fields_exclude_eight sample_get decimal_float_of_str decimal_float_of_int
           (Some "k") None sample_system).
Defined.

(** C9 as stated fails: the payload is a non-empty mapping without a
    "Response" item, but its director is a list, which SQLite cannot bind:
    the [INSERT] raises, the run ends there and no row is written. *)
Lemma unbindable_director_aborts :
  run_cache (run_with_payload list_director_payload) !! "Title|1995"
  = Some list_director_payload /\
  run_exn (run_with_payload list_director_payload) = Some SqliteBindError /\
  movies_enriched (run_sys (run_with_payload list_director_payload)) !! 1 = None.
Proof. vm_compute. repeat split; reflexivity. Qed.

(** C9 (amended) on the sample input: no "Response" item, fields that can
    be bound. *)
Lemma missing_response_counts_as_found_witness :
  exists row,
    EvUpsert 1 row ∈ (nth_record (run_with_payload no_response_payload) 0).2 /\
    movies_enriched (run_sys (run_with_payload no_response_payload)) !! 1 = Some row.
Proof.
  apply (proj2 (missing_response_counts_as_found sample_get decimal_float_of_str
                  decimal_float_of_int)
           None (Some {["Title|1995" := no_response_payload]}) title_system
           (1, MovieRow "Title" (Some 1995) None)
           (nth_record (run_with_payload no_response_payload) 0).2
           [("Director", JStr "X"); ("imdbID", JStr "tt0000002")]).
  - apply (list_elem_of_lookup_2 _ 0%nat). vm_compute. reflexivity.
  - vm_compute. reflexivity.
  - discriminate.
  - reflexivity.
  - vm_compute. repeat constructor.
  - repeat (apply Forall_cons; split); try apply Forall_nil; simpl; done.
  - reflexivity.
Defined.

(** The year of "Toy Story (1995)", with white space after it. *)
Lemma extract_year_four_digits_witness : sample_year "Toy Story (1995)  " = Some 1995.
Proof.
  apply (extract_year_four_digits sample_isspace sample_decimal
           "Toy Story (" "  " "1" "9" "9" "5" 1 9 9 5
           eq_refl eq_refl eq_refl eq_refl).
  repeat constructor.
Defined.

Lemma extract_year_bounds_witness :
  ends_with_paren (py_strip sample_isspace "Toy Story (1995)") = true /\
  (-999 <= 1995 <= 9999)%Z.
Proof.
  apply (extract_year_bounds sample_isspace sample_decimal "Toy Story (1995)" 1995).
  vm_compute. reflexivity.
Defined.

Lemma upsert_movies_year_of_title_witness :
  (∅ : gmap Z movie_row) !! 1 = Some (MovieRow "Heat (1995)" (Some 1995) (Some "Action")) \/
  (m_year (MovieRow "Heat (1995)" (Some 1995) (Some "Action"))
   = sample_year (m_title (MovieRow "Heat (1995)" (Some 1995) (Some "Action"))) /\
   (1, m_title (MovieRow "Heat (1995)" (Some 1995) (Some "Action")),
    m_genres (MovieRow "Heat (1995)" (Some 1995) (Some "Action")))
   ∈ [(1, "Heat (1995)", Some "Action")]).
Proof.
  apply (upsert_movies_year_of_title sample_isspace sample_decimal
           [(1, "Heat (1995)", Some "Action")] ∅ 1
           (MovieRow "Heat (1995)" (Some 1995) (Some "Action"))).
  vm_compute. reflexivity.
Defined.

Lemma cache_key_inj_witness : "A|1" = "A|1" /\ Some 2001 = Some 2001.
Proof. exact (cache_key_inj "A|1" (Some 2001) "A|1" (Some 2001) eq_refl). Defined.

Lemma enriched_row_has_base_record_witness :
  movies_enriched title_system !! 1 = Some no_response_row \/
  exists base, movies title_system !! 1 = Some base /\
               e_title no_response_row = m_title base /\
               e_year no_response_row = m_year base /\
               e_genres no_response_row = m_genres base.
Proof.
  apply (enriched_row_has_base_record sample_get decimal_float_of_str decimal_float_of_int
           None (Some {["Title|1995" := no_response_payload]}) title_system 1
           no_response_row).
  vm_compute. reflexivity.
Defined.

(** A missing and an unreadable cache file, on the sample live run. *)
Lemma unreadable_cache_is_empty_cache_witness :
  movies_enriched
    (sample_main live_args None sample_files (with_cache_file FileMissing sample_system)).1
  = movies_enriched
      (sample_main live_args None sample_files (with_cache_file FileCorrupt sample_system)).1.
Proof.
  exact (proj1 (proj2 (proj2
           (unreadable_cache_is_empty_cache sample_get decimal_float_of_str
              decimal_float_of_int sample_isspace sample_decimal
              live_args None sample_files sample_system
              FileMissing FileCorrupt eq_refl)))).
Defined.

(** A mock run of the sample pipeline on an empty cache. *)
Lemma mock_run_stores_absence_witness :
  Forall (fun p =>
            load_cache (omdb_cache sample_system) !! key_of p.1 = None ->
            run_cache (the_run (sample_main mock_args None sample_files sample_system).2)
              !! key_of p.1 = Some JNull /\
            Forall (fun e => is_upsert e = false) p.2)
         (run_trace (the_run (sample_main mock_args None sample_files sample_system).2)).
Proof.
  apply (mock_run_stores_absence sample_get decimal_float_of_str decimal_float_of_int
           sample_isspace sample_decimal mock_args None sample_files sample_system).
  - reflexivity.
  - vm_compute. reflexivity.
Defined.

(** The sample live run, then a run without credential on what it left. *)
Lemma second_run_is_served_from_cache_witness :
  count_misses
    (run_trace (sample_enrich None None
                  (run_sys (sample_enrich (Some "k") None sample_system)))) = 0%nat /\
  net (run_sys (sample_enrich None None
                  (run_sys (sample_enrich (Some "k") None sample_system))))
  = net (run_sys (sample_enrich (Some "k") None sample_system)).
Proof.
  destruct (second_run_is_served_from_cache sample_get decimal_float_of_str
              decimal_float_of_int (Some "k") None None None sample_system
              (run_sys (sample_enrich (Some "k") None sample_system)))
    as (_ & H1 & _ & _ & H2).
  - right. reflexivity.
  - vm_compute. reflexivity.
  - vm_compute. reflexivity.
  - reflexivity.
  - split; [exact H1|exact H2].
Defined.
